(** * The void-memory stdio bridge ([scripts/void_service.py])

    A shallow embedding of the bridge process that exposes the Python
    [VoidMemoryManager] over newline-delimited JSON, and the properties of
    its request loop, its configuration cache and its register command.

    Layout: the data model and the embedded functions come first, then a
    small in-memory manager used to run the bridge on concrete inputs, then
    the lemmas and theorems. *)

From Stdlib Require Import Bool Ascii String List ZArith Lia Permutation Sorted.
From Stdlib Require Import DecimalString DecimalZ.
From Stdlib Require Decimal DecimalPos OrderedTypeEx.
Import ListNotations.

Set Warnings "-register-all".

Local Open Scope list_scope.
Local Open Scope string_scope.

(* ================================================================== *)
(** * 1. Decoded JSON values *)
(* ================================================================== *)

(** What [json.loads] returns.  A Python [str] is a [string] whose
    characters are the code points below 256.  An [int] is a [Z].  The
    bridge never computes with a [float]: it only passes floats on and
    prints them, so a float is carried by the numeral [json.dumps] writes
    for it (Python's shortest round-tripping [repr], or [NaN], [Infinity],
    [-Infinity]); two floats are the same value exactly when these numerals
    are the same text.  A [dict] is the list of its items in insertion
    order; a Python dict has no two items with the same key ([wf]). *)
Inductive json : Type :=
| JNull
| JBool (b : bool)
| JInt (z : Z)
| JFloat (numeral : string)
| JStr (s : string)
| JArr (items : list json)
| JObj (fields : list (string * json)).

Definition items := list (string * json).

(** ** Characters *)

Definition dquote : ascii := "034"%char.
Definition backslash : ascii := "092"%char.

Definition code (c : ascii) : nat := nat_of_ascii c.

Definition hex_digit (n : nat) : ascii :=
  match n with
  | 0 => "0" | 1 => "1" | 2 => "2" | 3 => "3" | 4 => "4" | 5 => "5"
  | 6 => "6" | 7 => "7" | 8 => "8" | 9 => "9" | 10 => "a" | 11 => "b"
  | 12 => "c" | 13 => "d" | 14 => "e" | _ => "f"
  end%char.

(** The two lower-case hexadecimal digits of a code point below 256. *)
Definition hex2 (c : ascii) : string :=
  String (hex_digit (code c / 16)) (String (hex_digit (code c mod 16)) "").

Fixpoint has_char (c : ascii) (s : string) : bool :=
  match s with
  | "" => false
  | String a r => Ascii.eqb a c || has_char c r
  end.

(** ** Lookups in a dict *)

Fixpoint lookup (k : string) (d : items) : option json :=
  match d with
  | [] => None
  | (k', v) :: rest => if String.eqb k k' then Some v else lookup k rest
  end.

Definition keys (d : items) : list string := map fst d.

(** The value under [k], or [default] when [k] is not a key. *)
Definition item_or (k : string) (d : items) (default : json) : json :=
  match lookup k d with
  | Some x => x
  | None => default
  end.

Definition has_key (k : string) (d : items) : bool :=
  match lookup k d with Some _ => true | None => false end.

(** ** [json.dumps] *)

(** One character of a string literal, as [json.dumps] writes it with its
    default [ensure_ascii=True]: the printable ASCII characters other than
    the quote and the backslash stand for themselves, the rest is escaped. *)
Definition escape_char (c : ascii) : string :=
  if Ascii.eqb c dquote then String backslash (String dquote "")
  else if Ascii.eqb c backslash then String backslash (String backslash "")
  else if Ascii.eqb c "010" then "\n"
  else if Ascii.eqb c "013" then "\r"
  else if Ascii.eqb c "009" then "\t"
  else if Ascii.eqb c "008" then "\b"
  else if Ascii.eqb c "012" then "\f"
  else if (32 <=? code c)%nat && (code c <=? 126)%nat then String c ""
  else "\u00" ++ hex2 c.

Fixpoint escape (s : string) : string :=
  match s with
  | "" => ""
  | String c r => escape_char c ++ escape r
  end.

Definition quoted (s : string) : string :=
  String dquote (escape s ++ String dquote "").

(** [int.__repr__]: decimal digits, with a minus sign for a negative. *)
Definition int_repr (z : Z) : string := NilZero.string_of_int (Z.to_int z).

(** The chunks of a list or dict, the first as it is and each later one
    after the item separator [", "]. *)
Section Joined.
Context {A : Type} (chunk : A -> string).

Fixpoint more (l : list A) : string :=
  match l with
  | [] => ""
  | y :: r => ", " ++ chunk y ++ more r
  end.

Definition joined (l : list A) : string :=
  match l with
  | [] => ""
  | x :: r => chunk x ++ more r
  end.
End Joined.

(** [json.dumps(v)] with the default separators [", "] and [": "], no
    indentation, dict items in insertion order. *)
Fixpoint dumps (v : json) : string :=
  match v with
  | JNull => "null"
  | JBool true => "true"
  | JBool false => "false"
  | JInt z => int_repr z
  | JFloat r => r
  | JStr s => quoted s
  | JArr l => "[" ++ joined dumps l ++ "]"
  | JObj d => "{" ++ joined (fun '(k, x) => quoted k ++ ": " ++ dumps x) d ++ "}"
  end.

(** ** [sort_keys=True] *)

(** [sorted(dct.items())]: the keys of a dict are distinct, so the order of
    the items is the order of their keys, code point by code point. *)
Fixpoint insert_item (kv : string * json) (d : items) : items :=
  match d with
  | [] => [kv]
  | kv' :: rest =>
      if String.leb (fst kv) (fst kv') then kv :: d
      else kv' :: insert_item kv rest
  end.

Fixpoint sort_items (d : items) : items :=
  match d with
  | [] => []
  | kv :: rest => insert_item kv (sort_items rest)
  end.

(** The value with the items of every dict in it sorted, which is the
    order in which the encoder visits them under [sort_keys=True]. *)
Fixpoint sort_keys (v : json) : json :=
  match v with
  | JArr l => JArr (map sort_keys l)
  | JObj d => JObj (sort_items (map (fun '(k, x) => (k, sort_keys x)) d))
  | _ => v
  end.

(** [json.dumps(config, sort_keys=True)], the cache key of
    [ensure_manager]. *)
Definition fingerprint (config : json) : string := dumps (sort_keys config).

(** ** Well-formed values and their equality *)

Fixpoint all_chars (p : ascii -> bool) (s : string) : bool :=
  match s with
  | "" => true
  | String c r => p c && all_chars p r
  end.

Definition is_digit (c : ascii) : bool :=
  ((48 <=? code c) && (code c <=? 57))%nat.

(** The characters of an [int] numeral. *)
Definition int_char (c : ascii) : bool := is_digit c || Ascii.eqb c "-".

(** The characters of a [float] numeral: those of [repr] ([1e-05],
    [-2.5], [1e+16]) and those of [NaN] and [Infinity]. *)
Definition float_char (c : ascii) : bool :=
  is_digit c || has_char c "+-.eNaInfity".

(** A numeral [json.dumps] can write for a [float] is made of
    [float_char]s and is not an [int] numeral: it has a point, an exponent
    or letters.  (Every numeral of a Python float is of this shape.) *)
Definition float_numeral (r : string) : bool :=
  all_chars float_char r && negb (all_chars int_char r).

Section Everywhere.
Variable P : json -> Prop.

Fixpoint all_items (l : list json) : Prop :=
  match l with
  | [] => True
  | x :: r => P x /\ all_items r
  end.

Fixpoint all_values (d : items) : Prop :=
  match d with
  | [] => True
  | (_, x) :: r => P x /\ all_values r
  end.
End Everywhere.

(** A value [json.loads] can return: the keys of every dict in it are
    pairwise distinct, and every float in it has a float numeral. *)
Fixpoint wf (v : json) : Prop :=
  match v with
  | JFloat r => float_numeral r = true
  | JArr l => all_items wf l
  | JObj d => NoDup (keys d) /\ all_values wf d
  | _ => True
  end.

(** Same key/value pairs regardless of key order: arrays agree position by
    position, dicts agree up to a reordering of their items, and so do the
    values inside them. *)
Inductive same_pairs : json -> json -> Prop :=
| SameNull : same_pairs JNull JNull
| SameBool b : same_pairs (JBool b) (JBool b)
| SameInt z : same_pairs (JInt z) (JInt z)
| SameFloat r : same_pairs (JFloat r) (JFloat r)
| SameStr s : same_pairs (JStr s) (JStr s)
| SameArr l l' : Forall2 same_pairs l l' -> same_pairs (JArr l) (JArr l')
| SameObj d d' e :
    Permutation d e ->
    Forall2 (fun kv kv' => fst kv = fst kv' /\ same_pairs (snd kv) (snd kv')) e d' ->
    same_pairs (JObj d) (JObj d').

(* ================================================================== *)
(** * 2. The Python operations the bridge applies to decoded values *)
(* ================================================================== *)

(** ** [str.strip()] *)

(** The characters [str.isspace] accepts among the code points below 256. *)
Definition is_space (c : ascii) : bool :=
  let n := code c in
  ((9 <=? n) && (n <=? 13) || (28 <=? n) && (n <=? 32)
   || (n =? 133) || (n =? 160))%nat.

Fixpoint lstrip (s : string) : string :=
  match s with
  | "" => ""
  | String c r => if is_space c then lstrip r else s
  end.

Fixpoint rstrip (s : string) : string :=
  match s with
  | "" => ""
  | String c r =>
      match rstrip r with
      | "" => if is_space c then "" else String c ""
      | r' => String c r'
      end
  end.

Definition strip (s : string) : string := rstrip (lstrip s).

(** ** Truth value, [str()] and [repr()] *)

Definition truthy (v : json) : bool :=
  match v with
  | JNull => false
  | JBool b => b
  | JInt z => negb (z =? 0)%Z
  | JFloat r => negb (String.eqb r "0.0" || String.eqb r "-0.0")
  | JStr s => negb (String.eqb s "")
  | JArr l => match l with [] => false | _ => true end
  | JObj d => match d with [] => false | _ => true end
  end.

Definition printable (c : ascii) : bool :=
  let n := code c in
  ((32 <=? n) && (n <=? 126) || (161 <=? n) && negb (n =? 173))%nat.

Definition repr_char (q c : ascii) : string :=
  if Ascii.eqb c q || Ascii.eqb c backslash then String backslash (String c "")
  else if Ascii.eqb c "009" then "\t"
  else if Ascii.eqb c "010" then "\n"
  else if Ascii.eqb c "013" then "\r"
  else if printable c then String c ""
  else "\x" ++ hex2 c.

(** [repr] of a [str]: single quotes, unless the text has a single quote
    and no double quote. *)
Definition str_repr (s : string) : string :=
  let q := if has_char "'" s && negb (has_char dquote s) then dquote else "'"%char in
  String q ((fix body (s : string) : string :=
               match s with
               | "" => ""
               | String c r => repr_char q c ++ body r
               end) s ++ String q "").

(** [repr] of a [float], from the numeral [json.dumps] writes for it. *)
Definition float_repr (numeral : string) : string :=
  if String.eqb numeral "Infinity" then "inf"
  else if String.eqb numeral "-Infinity" then "-inf"
  else if String.eqb numeral "NaN" then "nan"
  else numeral.

Fixpoint py_repr (v : json) : string :=
  match v with
  | JNull => "None"
  | JBool true => "True"
  | JBool false => "False"
  | JInt z => int_repr z
  | JFloat r => float_repr r
  | JStr s => str_repr s
  | JArr l => "[" ++ joined py_repr l ++ "]"
  | JObj d => "{" ++ joined (fun '(k, x) => str_repr k ++ ": " ++ py_repr x) d ++ "}"
  end.

(** What an f-string writes for [{v}]. *)
Definition py_str (v : json) : string :=
  match v with
  | JStr s => s
  | _ => py_repr v
  end.

(** [v == s] for a [str] literal [s]. *)
Definition eq_str (v : json) (s : string) : bool :=
  match v with
  | JStr t => String.eqb t s
  | _ => false
  end.

(** ** Exceptions *)

(** The exceptions that reach the bridge, all of them subclasses of
    [Exception].  [Raised] is an exception that comes out of a call to the
    manager or to the file system, with its [str()]. *)
Inductive exn : Type :=
| KeyError (key : string)
| AttributeError (msg : string)
| TypeError (msg : string)
| Raised (msg : string).

(** [str(exc)]; for a [KeyError] it is the [repr] of the missing key. *)
Definition exn_str (e : exn) : string :=
  match e with
  | KeyError k => str_repr k
  | AttributeError m | TypeError m | Raised m => m
  end.

Definition type_name (v : json) : string :=
  match v with
  | JNull => "NoneType"
  | JBool _ => "bool"
  | JInt _ => "int"
  | JFloat _ => "float"
  | JStr _ => "str"
  | JArr _ => "list"
  | JObj _ => "dict"
  end.

Definition is_object (v : json) : bool :=
  match v with JObj _ => true | _ => false end.

(** What [v.get] raises when [v] is not a dict. *)
Definition no_get (v : json) : exn :=
  AttributeError ("'" ++ type_name v ++ "' object has no attribute 'get'").

(** [v.get(k, default)]: only a dict has the method. *)
Definition get (v : json) (k : string) (default : json) : exn + json :=
  match v with
  | JObj d => inr (item_or k d default)
  | _ => inl (no_get v)
  end.

(** [v[k]] for a [str] key [k] (messages as CPython 3.11 words them). *)
Definition getitem (v : json) (k : string) : exn + json :=
  match v with
  | JObj d => match lookup k d with Some x => inr x | None => inl (KeyError k) end
  | JArr _ => inl (TypeError "list indices must be integers or slices, not str")
  | JStr _ => inl (TypeError "string indices must be integers, not 'str'")
  | _ => inl (TypeError ("'" ++ type_name v ++ "' object is not subscriptable"))
  end.

Fixpoint is_substring (k s : string) : bool :=
  String.prefix k s ||
  match s with
  | "" => false
  | String _ r => is_substring k r
  end.

(** [k in v] for a [str] key [k]: key membership in a dict, element
    membership in a list, substring test in a [str]. *)
Definition contains (v : json) (k : string) : exn + bool :=
  match v with
  | JObj d => inr (has_key k d)
  | JArr l => inr (existsb (fun x => eq_str x k) l)
  | JStr s => inr (is_substring k s)
  | _ => inl (TypeError ("argument of type '" ++ type_name v ++ "' is not iterable"))
  end.

(* ================================================================== *)
(** * 3. The bridge *)
(* ================================================================== *)

(** The result of an evaluation that may raise. *)
Definition outcome (A : Type) : Type := (exn + A)%type.

Section Bridge.

(** [handle]: references to live [VoidMemoryManager] objects; two handles
    are equal exactly when they are the same object.  [env]: the state of
    everything outside the bridge, that is the contents of the manager
    objects and the disk. *)
Variables handle env : Type.

(** The operations the bridge calls and does not define: the manager
    ([src.void_dynamics.manager]) and the [pathlib] calls on the state
    path.  Each one may change [env] and may raise.  The values they
    return are ones [json.dumps] can write. *)
Record Collaborators : Type := {
  path_exists : string -> env -> env * outcome bool;
  load_json : string -> env -> env * outcome (option handle);
  construct : items -> env -> env * outcome handle;
  mkdir_parent : string -> env -> env * outcome unit;
  save_json : handle -> string -> env -> env * outcome unit;
  register_chunks : handle -> json -> json -> env -> env * outcome unit;
  reinforce : handle -> json -> json -> json -> env -> env * outcome unit;
  stats : handle -> env -> env * outcome json;
  consume_events : handle -> env -> env * outcome json;
  top : handle -> Z -> env -> env * outcome json
}.

(** The history of a run: every call to a collaborator with its arguments
    and its outcome, in the order of the calls.  [Resolved] is a history
    entry of the bridge itself: one is written each time [load_manager]
    finishes, with the configuration it was given and what came out. *)
Inductive event : Type :=
| CallExists (path : string) (r : outcome bool)
| CallLoadJson (path : string) (r : outcome (option handle))
| CallConstruct (kwargs : items) (r : outcome handle)
| CallMkdir (path : string) (r : outcome unit)
| CallSaveJson (h : handle) (path : string) (r : outcome unit)
| CallRegisterChunks (h : handle) (ids raw_texts : json) (r : outcome unit)
| CallReinforce (h : handle) (results heat_gain ttl_boost : json) (r : outcome unit)
| CallStats (h : handle) (r : outcome json)
| CallConsumeEvents (h : handle) (r : outcome json)
| CallTop (h : handle) (n : Z) (r : outcome json)
| Resolved (config : json) (r : outcome handle).

Record world : Type := {
  outside : env;
  calls : list event;
  stdout : list string
}.

(** ** State and exceptions *)

Definition M (A : Type) : Type := world -> world * outcome A.

Definition ret {A} (a : A) : M A := fun w => (w, inr a).

Definition raise {A} (e : exn) : M A := fun w => (w, inl e).

Definition bind {A B} (m : M A) (k : A -> M B) : M B :=
  fun w =>
    match m w with
    | (w', inr a) => k a w'
    | (w', inl e) => (w', inl e)
    end.

Notation "x <- m ;; k" := (bind m (fun x => k))
  (at level 61, m at next level, right associativity).
Notation "m ;; k" := (bind m (fun _ => k))
  (at level 61, right associativity).

Definition lift {A} (r : outcome A) : M A := fun w => (w, r).

(** [try: m / except Exception as exc: handler exc]. *)
Definition try_except {A} (m : M A) (handler : exn -> M A) : M A :=
  fun w =>
    match m w with
    | (w', inr a) => (w', inr a)
    | (w', inl e) => handler e w'
    end.

(** The outcome of [m] as a value, for a [try] whose [except] branch
    leaves the enclosing block. *)
Definition attempt {A} (m : M A) : M (outcome A) :=
  fun w => let (w', r) := m w in (w', inr r).

(** The world with one more entry in its history. *)
Definition log (ev : event) (w : world) : world :=
  {| outside := outside w; calls := (calls w ++ [ev])%list; stdout := stdout w |}.

(** A call to a collaborator: run it on the outside state, write the call
    and its outcome in the history. *)
Definition call {A} (ev : outcome A -> event) (op : env -> env * outcome A) : M A :=
  fun w =>
    let (e', r) := op (outside w) in
    (log (ev r) {| outside := e'; calls := calls w; stdout := stdout w |}, r).

(** A run of the bridge's own with a history entry for its outcome. *)
Definition traced {A} (ev : outcome A -> event) (m : M A) : M A :=
  fun w => let (w', r) := m w in (log (ev r) w', r).

(** [print(json.dumps(v), flush=True)]: one line on standard output. *)
Definition printed (v : json) (w : world) : world :=
  {| outside := outside w; calls := calls w;
     stdout := (stdout w ++ [dumps v])%list |}.

Definition print_json (v : json) : M unit := fun w => (printed v w, inr tt).

(** ** The functions of [void_service.py] *)

(** [sys.argv]; [json.loads] on a line of input, which gives the decoded
    value or, for a text that is not JSON, the message of the
    [JSONDecodeError]; and the collaborators. *)
Variable argv : list string.
Variable json_loads : string -> string + json.
Variable vmm : Collaborators.

(** The state path: the first argument of the command line when there is
    one.  The text of the path stands for the [Path] object. *)
Definition STATE_PATH : string :=
  match argv with
  | _ :: p :: _ => p
  | _ => "server/data/void-state.json"
  end.

(** The parameters of the constructor of the manager, in the order in
    which [load_manager] passes them. *)
Definition manager_parameters : list string :=
  ["capacity"; "base_ttl"; "decay_half_life"; "prune_sample";
   "prune_target_ratio"; "recency_half_life_ticks"; "habituation_start";
   "habituation_scale"; "boredom_weight"; "frontier_novelty_threshold";
   "frontier_patience"; "diffusion_interval"; "diffusion_kappa";
   "exploration_churn_window"]%list.

(** The keyword arguments [name=config[name]], evaluated left to right. *)
Fixpoint keyword_args (config : json) (names : list string) : outcome items :=
  match names with
  | [] => inr []
  | name :: rest =>
      match getitem config name with
      | inl e => inl e
      | inr v =>
          match keyword_args config rest with
          | inl e => inl e
          | inr kwargs => inr ((name, v) :: kwargs)
          end
      end
  end.

(** [VoidMemoryManager(capacity=config['capacity'], ...)]. *)
Definition construct_from (config : json) : M handle :=
  kwargs <- lift (keyword_args config manager_parameters) ;;
  call (CallConstruct kwargs) (construct vmm kwargs).

(** Load the persisted manager or instantiate one from the provided
    configuration. *)
Definition load_manager (config : json) : M handle :=
  traced (Resolved config)
    (found <- call (CallExists STATE_PATH) (path_exists vmm STATE_PATH) ;;
     if found : bool then
       loaded <- call (CallLoadJson STATE_PATH) (load_json vmm STATE_PATH) ;;
       match loaded with
       | Some h => ret h
       | None => construct_from config
       end
     else construct_from config).

(** Persist the current manager state to disk. *)
Definition persist_manager (manager : handle) : M unit :=
  call (CallMkdir STATE_PATH) (mkdir_parent vmm STATE_PATH) ;;
  call (CallSaveJson manager STATE_PATH) (save_json vmm manager STATE_PATH).

(** Register incoming memories and apply optional reinforcement. *)
Definition register_and_reinforce (manager : handle) (payload : json) : M json :=
  ids <- lift (getitem payload "ids") ;;
  texts <- lift (getitem payload "texts") ;;
  reinforce_ <- lift (get payload "reinforce" (JObj [])) ;;
  heat_gain <- lift (get payload "heat_gain" (JFloat "0.5")) ;;
  ttl_boost <- lift (get payload "ttl_boost" (JInt 60)) ;;
  call (CallRegisterChunks manager ids texts) (register_chunks vmm manager ids texts) ;;
  (if truthy reinforce_ then
     with_ids <- lift (contains reinforce_ "ids") ;;
     payload1 <- (if with_ids : bool then
                    v <- lift (getitem reinforce_ "ids") ;; ret [("ids", v)]
                  else ret []) ;;
     with_distances <- lift (contains reinforce_ "distances") ;;
     results_payload <- (if with_distances : bool then
                           v <- lift (getitem reinforce_ "distances") ;;
                           ret (payload1 ++ [("distances", v)])%list
                         else ret payload1) ;;
     call (CallReinforce manager (JObj results_payload) heat_gain ttl_boost)
          (reinforce vmm manager (JObj results_payload) heat_gain ttl_boost)
   else ret tt) ;;
  persist_manager manager ;;
  st <- call (CallStats manager) (stats vmm manager) ;;
  evs <- call (CallConsumeEvents manager) (consume_events vmm manager) ;;
  tp <- call (CallTop manager 5) (top vmm manager 5) ;;
  ret (JObj [("stats", st); ("events", evs); ("top", tp)]).

(** [iter_requests]: the stripped lines of standard input that are not
    empty, in order. *)
Fixpoint iter_requests (stdin : list string) : list string :=
  match stdin with
  | [] => []
  | raw_line :: rest =>
      let line := strip raw_line in
      if String.eqb line "" then iter_requests rest
      else line :: iter_requests rest
  end.

(** [cached_config_hash == config_hash], where the cached hash may be
    [None]. *)
Definition hash_eqb (cached : option string) (h : string) : bool :=
  match cached with
  | Some c => String.eqb c h
  | None => false
  end.

(** Ensure a manager instance exists for the provided configuration. *)
Definition ensure_manager (manager : option handle)
    (cached_config_hash : option string) (config : json) : M (handle * string) :=
  let config_hash := fingerprint config in
  match manager with
  | Some m =>
      if hash_eqb cached_config_hash config_hash then ret (m, config_hash)
      else m' <- load_manager config ;; ret (m', config_hash)
  | None => m' <- load_manager config ;; ret (m', config_hash)
  end.

(** The two local variables of [main] that live across iterations. *)
Record session : Type := {
  manager : option handle;
  cached_config_hash : option string
}.

(** How an iteration of the loop of [main] ends: it goes on to the next
    request, or it returns from [main]. *)
Inductive control : Type := Continue | Return.

Definition error_response (msg : string) : json := JObj [("error", JStr msg)].

(** The second [try] block of [main]: the command runs against the
    resolved manager, and whatever it raises becomes an error response. *)
Definition run_command (m : handle) (command payload : json) : M json :=
  try_except
    (if eq_str command "register" then register_and_reinforce m payload
     else ret (error_response ("Unsupported command: " ++ py_str command)))
    (fun exc => ret (error_response ("Void manager error: " ++ exn_str exc))).

(** The body of the [for] loop of [main].  An exception that no handler
    of the body catches comes out as [inl]. *)
Definition process_request (s : session) (raw_payload : string)
  : M (session * control) :=
  match json_loads raw_payload with
  | inl exc =>
      print_json (error_response ("Invalid JSON payload: " ++ exc)) ;;
      ret (s, Continue)
  | inr payload =>
      command <- lift (get payload "command" JNull) ;;
      if eq_str command "__shutdown__" then
        print_json (JObj [("ok", JBool true); ("command", JStr "__shutdown__")]) ;;
        ret (s, Return)
      else
        config <- lift (get payload "config" JNull) ;;
        match config with
        | JObj _ =>
            resolved <- attempt (ensure_manager (manager s) (cached_config_hash s) config) ;;
            match resolved with
            | inl exc =>
                print_json (error_response
                              ("Failed to initialize manager: " ++ exn_str exc)) ;;
                ret (s, Continue)
            | inr (m, config_hash) =>
                result <- run_command m command payload ;;
                print_json result ;;
                ret ({| manager := Some m; cached_config_hash := Some config_hash |},
                     Continue)
            end
        | _ =>
            print_json (error_response "Missing manager configuration") ;;
            ret (s, Continue)
        end
  end.

(** The [for] loop of [main] over the requests still to come.  It returns
    the session as the loop leaves it. *)
Fixpoint main_loop (requests : list string) (s : session) : M session :=
  match requests with
  | [] => ret s
  | raw_payload :: rest =>
      step <- process_request s raw_payload ;;
      match step with
      | (s', Continue) => main_loop rest s'
      | (s', Return) => ret s'
      end
  end.

(** Entry point: no manager and no hash at first, then the loop over the
    requests of standard input. *)
Definition initial_session : session :=
  {| manager := None; cached_config_hash := None |}.

Definition main (stdin : list string) : M session :=
  main_loop (iter_requests stdin) initial_session.

End Bridge.

Arguments path_exists {handle env}.
Arguments load_json {handle env}.
Arguments construct {handle env}.
Arguments mkdir_parent {handle env}.
Arguments save_json {handle env}.
Arguments register_chunks {handle env}.
Arguments reinforce {handle env}.
Arguments stats {handle env}.
Arguments consume_events {handle env}.
Arguments top {handle env}.
Arguments CallExists {handle}.
Arguments CallLoadJson {handle}.
Arguments CallConstruct {handle}.
Arguments CallMkdir {handle}.
Arguments CallSaveJson {handle}.
Arguments CallRegisterChunks {handle}.
Arguments CallReinforce {handle}.
Arguments CallStats {handle}.
Arguments CallConsumeEvents {handle}.
Arguments CallTop {handle}.
Arguments Resolved {handle}.
Arguments Build_world {handle env}.
Arguments outside {handle env}.
Arguments calls {handle env}.
Arguments stdout {handle env}.
Arguments ret {handle env A}.
Arguments raise {handle env A}.
Arguments bind {handle env A B}.
Arguments lift {handle env A}.
Arguments try_except {handle env A}.
Arguments attempt {handle env A}.
Arguments log {handle env}.
Arguments call {handle env A}.
Arguments traced {handle env A}.
Arguments printed {handle env}.
Arguments print_json {handle env}.
Arguments construct_from {handle env}.
Arguments load_manager {handle env}.
Arguments persist_manager {handle env}.
Arguments register_and_reinforce {handle env}.
Arguments ensure_manager {handle env}.
Arguments Build_session {handle}.
Arguments manager {handle}.
Arguments cached_config_hash {handle}.
Arguments run_command {handle env}.
Arguments process_request {handle env}.
Arguments main_loop {handle env}.
Arguments initial_session {handle}.
Arguments main {handle env}.

(* ================================================================== *)
(** * 4. An in-memory manager, to run the bridge *)
(* ================================================================== *)

(** A stand-in for [VoidMemoryManager] and the disk, in the manner of the
    mock of the unit tests: a manager holds the ids registered with it, the
    state file holds the ids of the manager last saved.  It serves to run
    the bridge on concrete requests; no theorem about the bridge depends
    on it. *)
Module Demo.

Inductive state_file : Type :=
| NoFile
| Unusable                      (* the file is there, [load_json] finds nothing in it *)
| Corrupt                       (* the file is there, [load_json] raises on it *)
| Saved (ids : list json).

Record store : Type := {
  objects : list (list json);   (* the ids held by manager number [h] *)
  file : state_file
}.

Definition held (h : nat) (e : store) : list json := nth h (objects e) [].

Definition allocate (ids : list json) (e : store) : store * outcome nat :=
  ({| objects := (objects e ++ [ids])%list; file := file e |},
   inr (length (objects e))).

Fixpoint update (h : nat) (ids : list json) (objs : list (list json))
  : list (list json) :=
  match objs, h with
  | [], _ => []
  | _ :: rest, O => ids :: rest
  | o :: rest, S h' => o :: update h' ids rest
  end.

Definition is_number (v : json) : bool :=
  match v with
  | JInt _ | JFloat _ => true
  | _ => false
  end.

Definition vmm : Collaborators nat store := {|
  path_exists _ e :=
    (e, inr (match file e with NoFile => false | _ => true end));
  load_json _ e :=
    match file e with
    | NoFile | Unusable => (e, inr None)
    | Corrupt => (e, inl (Raised "state file is corrupt"))
    | Saved ids =>
        let (e', r) := allocate ids e in
        (e', match r with inr h => inr (Some h) | inl x => inl x end)
    end;
  construct kwargs e :=
    match lookup "capacity" kwargs with
    | Some (JInt z) =>
        if (0 <? z)%Z then allocate [] e
        else (e, inl (Raised "capacity must be positive"))
    | _ => (e, inl (Raised "capacity must be an integer"))
    end;
  mkdir_parent _ e := (e, inr tt);
  save_json h _ e :=
    ({| objects := objects e; file := Saved (held h e) |}, inr tt);
  register_chunks h ids _ e :=
    match ids with
    | JArr l =>
        ({| objects := update h (held h e ++ l)%list (objects e);
            file := file e |}, inr tt)
    | _ => (e, inl (Raised "ids must be a list"))
    end;
  reinforce _ _ heat_gain _ e :=
    if is_number heat_gain then (e, inr tt)
    else (e, inl (Raised "heat_gain must be a number"));
  stats h e := (e, inr (JObj [("count", JInt (Z.of_nat (length (held h e))))]));
  consume_events _ e := (e, inr (JArr []));
  top h n e := (e, inr (JArr (firstn (Z.to_nat n) (held h e))))
|}.

(** A decoder that knows the texts of the payloads in [known] and rejects
    every other text. *)
Fixpoint loads (known : list json) (s : string) : string + json :=
  match known with
  | [] => inl "Expecting value: line 1 column 1 (char 0)"
  | v :: rest => if String.eqb (dumps v) s then inr v else loads rest s
  end.

Definition start (f : state_file) : world nat store :=
  {| outside := {| objects := []; file := f |}; calls := []; stdout := [] |}.

(** The fourteen parameters of the manager. *)
Definition parameters (capacity : Z) : items :=
  [("capacity", JInt capacity); ("base_ttl", JInt 120);
   ("decay_half_life", JInt 8); ("prune_sample", JInt 64);
   ("prune_target_ratio", JFloat "0.4");
   ("recency_half_life_ticks", JInt 32); ("habituation_start", JInt 16);
   ("habituation_scale", JFloat "1.0"); ("boredom_weight", JFloat "0.35");
   ("frontier_novelty_threshold", JFloat "0.7");
   ("frontier_patience", JInt 3); ("diffusion_interval", JInt 12);
   ("diffusion_kappa", JFloat "0.25");
   ("exploration_churn_window", JInt 32)].

Definition config (capacity : Z) : json := JObj (parameters capacity).

(** Payloads.  The in-memory constructor refuses a capacity of 0. *)
Definition noop_fields (capacity : Z) : items :=
  [("command", JStr "noop"); ("config", config capacity)].

Definition no_command_fields : items := [("config", config 10)].

Definition register_fields : items :=
  [("command", JStr "register"); ("config", config 10);
   ("ids", JArr [JStr "a"; JStr "b"]); ("texts", JArr [JStr "x"; JStr "y"])].

Definition reinforced_fields : items :=
  (register_fields ++ [("reinforce", JObj [("ids", JArr [JStr "a"])])])%list.

(** A [heat_gain] the in-memory [reinforce] refuses. *)
Definition refused_fields : items :=
  (reinforced_fields ++ [("heat_gain", JStr "hot")])%list.

Definition shutdown : json := JObj [("command", JStr "__shutdown__")].

(** A configuration mapping without the parameters. *)
Definition bare_fields : items :=
  [("command", JStr "noop"); ("config", JObj [])].

Definition known : list json :=
  [JObj (noop_fields 10); JObj (noop_fields 0); JObj no_command_fields;
   JObj bare_fields;
   JObj register_fields; JObj reinforced_fields; JObj refused_fields;
   JObj [("command", JStr "register")]; shutdown; JInt 42].

Definition decode : string -> string + json := loads known.

(** The state of [main] after it has served a first request with the
    configuration of capacity 10. *)
Definition served : session nat :=
  {| manager := Some 0;
     cached_config_hash := Some (fingerprint (config 10)) |}.

Definition after_first (f : state_file) : world nat store :=
  fst (main_loop [] decode vmm [dumps (JObj (noop_fields 10))]
         initial_session (start f)).

Definition newline : string := String "010" "".

(** The same pairs in two orders, at two depths. *)
Definition ratio_first : json :=
  JObj [("prune_target_ratio", JFloat "0.4"); ("capacity", JInt 10);
        ("window", JObj [("to", JInt 2); ("from", JInt 1)])].

Definition capacity_first : json :=
  JObj [("capacity", JInt 10);
        ("window", JObj [("from", JInt 1); ("to", JInt 2)]);
        ("prune_target_ratio", JFloat "0.4")].

(** A register request with a configuration and no [ids]. *)
Definition register_no_ids_fields : items :=
  [("command", JStr "register"); ("config", config 10)].

(** Register requests whose [reinforce] is not a mapping. *)
Definition null_reinforce_fields : items :=
  (register_fields ++ [("reinforce", JNull)])%list.

Definition true_reinforce_fields : items :=
  (register_fields ++ [("reinforce", JBool true)])%list.

(** Two configurations that differ in one pair. *)
Definition small_config (capacity : Z) : json :=
  JObj [("capacity", JInt capacity)].

End Demo.

(* ================================================================== *)
(** * 5. Notions the statements and their proofs use *)
(* ================================================================== *)

(** ** Reading the text of [json.dumps] back *)

Definition is_alpha (c : ascii) : bool :=
  ((65 <=? code c) && (code c <=? 90) || (97 <=? code c) && (code c <=? 122))%nat.

(** The characters of [null], [true], [false] and of the numerals. *)
Definition token_char (c : ascii) : bool :=
  is_digit c || is_alpha c || has_char c "+-.".

(** What may follow a value in the text: nothing, or a character that
    cannot continue a numeral or a literal (a comma, a bracket, a brace). *)
Definition delimited (r : string) : bool :=
  match r with
  | "" => true
  | String c _ => negb (token_char c)
  end.

Inductive shape : Type := Atom | Text | Array | Object.

Definition shape_of (v : json) : shape :=
  match v with
  | JStr _ => Text
  | JArr _ => Array
  | JObj _ => Object
  | _ => Atom
  end.

(** The shape of the value a text begins with, from its first character. *)
Definition lead (s : string) : option shape :=
  match s with
  | "" => None
  | String c _ =>
      if Ascii.eqb c dquote then Some Text
      else if Ascii.eqb c "[" then Some Array
      else if Ascii.eqb c "{" then Some Object
      else if token_char c then Some Atom
      else None
  end.

Definition hex_value (c : ascii) : nat :=
  if is_digit c then code c - 48 else code c - 87.

(** The first character of the body of a string literal and the text after
    it; [None] at the closing quote. *)
Definition unescape_char (s : string) : option (ascii * string) :=
  match s with
  | "" => None
  | String c r =>
      if Ascii.eqb c dquote then None
      else if Ascii.eqb c backslash then
        match r with
        | "" => None
        | String e r' =>
            if Ascii.eqb e "u" then
              match r' with
              | String _ (String _ (String h (String l r''))) =>
                  Some (ascii_of_nat (16 * hex_value h + hex_value l), r'')
              | _ => None
              end
            else if Ascii.eqb e "n" then Some ("010"%char, r')
            else if Ascii.eqb e "r" then Some ("013"%char, r')
            else if Ascii.eqb e "t" then Some ("009"%char, r')
            else if Ascii.eqb e "b" then Some ("008"%char, r')
            else if Ascii.eqb e "f" then Some ("012"%char, r')
            else Some (e, r')
        end
      else Some (c, r)
  end.

(** The chunk of a dict item, and the item with its value sorted. *)
Definition item_chunk : string * json -> string :=
  fun '(k, x) => quoted k ++ ": " ++ dumps x.

Definition sorted_item : string * json -> string * json :=
  fun '(k, x) => (k, sort_keys x).

(** The text of [v] followed by a delimiter is the text of no other value
    followed by a delimiter. *)
Definition prefix_free (v : json) : Prop :=
  forall w r r', wf v -> wf w ->
    delimited r = true -> delimited r' = true ->
    dumps v ++ r = dumps w ++ r' -> v = w /\ r = r'.

(** Items in the strict order of their keys. *)
Definition key_lt (a b : string * json) : Prop :=
  String.compare (fst a) (fst b) = Lt.

(** ** Reading a line of input or of output *)

Definition starts_with_space (s : string) : bool :=
  match s with
  | "" => false
  | String c _ => is_space c
  end.

Fixpoint ends_with_space (s : string) : bool :=
  match s with
  | "" => false
  | String c r =>
      match r with
      | "" => is_space c
      | _ => ends_with_space r
      end
  end.

(** The printable characters of ASCII, space included. *)
Definition ascii_printable (c : ascii) : bool :=
  ((32 <=? code c) && (code c <=? 126))%nat.

(** ** Reading the history of a run *)

Section History.
Context {handle : Type}.

Definition is_resolution (ev : event handle) : bool :=
  match ev with Resolved _ _ => true | _ => false end.

Definition is_save (ev : event handle) : bool :=
  match ev with CallSaveJson _ _ _ => true | _ => false end.

Definition is_reinforce (ev : event handle) : bool :=
  match ev with CallReinforce _ _ _ _ _ => true | _ => false end.

(** The three calls that read the manager for the response. *)
Definition is_read (ev : event handle) : bool :=
  match ev with
  | CallStats _ _ | CallConsumeEvents _ _ | CallTop _ _ _ => true
  | _ => false
  end.

(** The path a call is made on, and the manager a call is made to. *)
Definition event_path (ev : event handle) : option string :=
  match ev with
  | CallExists p _ | CallLoadJson p _ | CallMkdir p _ | CallSaveJson _ p _ =>
      Some p
  | _ => None
  end.

Definition event_manager (ev : event handle) : option handle :=
  match ev with
  | CallSaveJson h _ _ | CallRegisterChunks h _ _ _
  | CallReinforce h _ _ _ _ | CallStats h _ | CallConsumeEvents h _
  | CallTop h _ _ => Some h
  | _ => None
  end.

(** A call of a request that ends with the manager [cached] in the
    session: it is made on the state path [p], or to that manager. *)
Definition in_bounds (p : string) (cached : option handle)
    (ev : event handle) : Prop :=
  (forall q, event_path ev = Some q -> q = p) /\
  (forall h, event_manager ev = Some h -> cached = Some h).

(** How many times the load-or-construct path ([load_manager]) ran. *)
Definition resolutions (l : list (event handle)) : nat :=
  length (filter is_resolution l).

(** How many times [save_json] was called. *)
Definition saves (l : list (event handle)) : nat :=
  length (filter is_save l).

Definition reinforcements (l : list (event handle)) : nat :=
  length (filter is_reinforce l).

(** The keyword arguments are the fourteen parameters, in order, each
    with the value [config] has for it. *)
Definition full_parameter_set (config : json) (kwargs : items) : Prop :=
  keys kwargs = manager_parameters /\
  forall name v, In (name, v) kwargs -> getitem config name = inr v.

(** Where the manager [m] that [load_manager config] returned came from,
    in the calls [new] of that run: out of [load_json], or out of the
    constructor called with the parameters of [config]. *)
Definition source_of (new : list (event handle)) (m : handle) (config : json)
  : Prop :=
  (exists p, In (CallLoadJson p (inr (Some m))) new) \/
  (exists kwargs, keyword_args config manager_parameters = inr kwargs /\
                  In (CallConstruct kwargs (inr m)) new).

(** The manager [m] came out of the constructor, called with the
    parameters of [config]. *)
Definition constructed_from (l : list (event handle)) (m : handle)
    (config : json) : Prop :=
  exists kwargs,
    keyword_args config manager_parameters = inr kwargs /\
    In (CallConstruct kwargs (inr m)) l.

(** The manager [m] came out of [load_json]. *)
Definition restored (l : list (event handle)) (m : handle) : Prop :=
  exists path, In (CallLoadJson path (inr (Some m))) l.

(** [load_manager config] returned [m], which it had restored from the
    state file or constructed from [config]. *)
Definition resolved_as (l : list (event handle)) (m : handle)
    (config : json) : Prop :=
  In (Resolved config (inr m)) l /\
  (restored l m \/ constructed_from l m config).

(** The session caches a manager under the fingerprint of the
    configuration whose resolution returned that manager. *)
Definition session_consistent (s : session handle) (l : list (event handle))
  : Prop :=
  match manager s with
  | Some m =>
      exists config,
        cached_config_hash s = Some (fingerprint config) /\
        resolved_as l m config
  | None => cached_config_hash s = None
  end.

(** The stronger reading: the cached manager was constructed from the
    configuration whose fingerprint is cached with it. *)
Definition session_built_from_config (s : session handle)
    (l : list (event handle)) : Prop :=
  forall m, manager s = Some m ->
    exists config,
      cached_config_hash s = Some (fingerprint config) /\
      constructed_from l m config.

End History.

(** The requests the loop processes: those up to the first shutdown
    command, that command included. *)
Definition is_shutdown (json_loads : string -> string + json) (raw : string)
  : bool :=
  match json_loads raw with
  | inr (JObj d) => eq_str (item_or "command" d JNull) "__shutdown__"
  | _ => false
  end.

(** The values for which [k in v] raises a [TypeError]: those that are
    neither a [dict], a [list] nor a [str]. *)
Definition not_iterable (v : json) : bool :=
  match v with
  | JNull | JBool _ | JInt _ | JFloat _ => true
  | _ => false
  end.

(** A request the loop answers without looking for a manager: its text is
    not JSON, or it is an object, not the shutdown command, whose [config]
    is not an object. *)
Definition rejected (json_loads : string -> string + json) (raw : string)
  : bool :=
  match json_loads raw with
  | inl _ => true
  | inr (JObj d) =>
      negb (eq_str (item_or "command" d JNull) "__shutdown__") &&
      negb (is_object (item_or "config" d JNull))
  | inr _ => false
  end.


(** There is no usable persisted state: the state file is not there, or
    [load_json] found no manager in it. *)
Definition no_usable_state {handle env : Type} (vmm : Collaborators handle env)
    (path : string) (e : env) : Prop :=
  (exists e1, path_exists vmm path e = (e1, inr false)) \/
  (exists e1 e2, path_exists vmm path e = (e1, inr true) /\
                 load_json vmm path e1 = (e2, inr None)).

(* ================================================================== *)
(** * 6. The fingerprint of a configuration *)
(* ================================================================== *)

(** ** Induction over decoded values *)

Lemma json_induction (P : json -> Prop) :
  P JNull -> (forall b, P (JBool b)) -> (forall z, P (JInt z)) ->
  (forall r, P (JFloat r)) -> (forall s, P (JStr s)) ->
  (forall l, all_items P l -> P (JArr l)) ->
  (forall d, all_values P d -> P (JObj d)) ->
  forall v, P v.
Proof.
  intros Hnull Hbool Hint Hfloat Hstr Harr Hobj.
  fix IH 1. intros [| b | z | r | s | l | d].
  - exact Hnull.
  - apply Hbool.
  - apply Hint.
  - apply Hfloat.
  - apply Hstr.
  - apply Harr. induction l as [| x l IHl]; simpl; [exact I | split; [apply IH | exact IHl]].
  - apply Hobj. induction d as [| [k x] d IHd]; simpl; [exact I | split; [apply IH | exact IHd]].
Qed.

(** ** Characters *)

Ltac by_cases_on_char c :=
  destruct c as [[] [] [] [] [] [] [] []]; try reflexivity; try discriminate.

Lemma int_char_token c : int_char c = true -> token_char c = true.
Proof. by_cases_on_char c. Qed.

Lemma float_char_token c : float_char c = true -> token_char c = true.
Proof. by_cases_on_char c. Qed.

Lemma unescape_escape c rest :
  unescape_char (escape_char c ++ rest) = Some (c, rest).
Proof. by_cases_on_char c. Qed.

Lemma unescape_quote rest : unescape_char (String dquote rest) = None.
Proof. reflexivity. Qed.

Lemma all_chars_weaken (p q : ascii -> bool) s :
  (forall c, p c = true -> q c = true) ->
  all_chars p s = true -> all_chars q s = true.
Proof.
  intros Hpq. induction s as [| c s IH]; simpl; [reflexivity |].
  intros H. apply andb_true_iff in H as [Hc Hs].
  rewrite (Hpq _ Hc), (IH Hs). reflexivity.
Qed.

Lemma append_assoc (a b c : string) : (a ++ b) ++ c = a ++ (b ++ c).
Proof. induction a as [| x a IH]; simpl; [reflexivity | now rewrite IH]. Qed.

Lemma append_nil_r (a : string) : a ++ "" = a.
Proof. induction a as [| x a IH]; simpl; [reflexivity | now rewrite IH]. Qed.

(** ** String literals *)

Lemma escape_prefix_free s : forall s' r r',
  escape s ++ String dquote r = escape s' ++ String dquote r' ->
  s = s' /\ r = r'.
Proof.
  induction s as [| c s IH]; intros [| c' s'] r r' H; simpl in H.
  - injection H as ->. split; reflexivity.
  - apply (f_equal unescape_char) in H.
    rewrite append_assoc, unescape_escape in H. discriminate.
  - apply (f_equal unescape_char) in H.
    rewrite append_assoc, unescape_escape in H. discriminate.
  - apply (f_equal unescape_char) in H.
    rewrite !append_assoc, !unescape_escape in H.
    injection H as -> H. apply IH in H as [-> ->]. split; reflexivity.
Qed.

Lemma quoted_prefix_free s s' r r' :
  quoted s ++ r = quoted s' ++ r' -> s = s' /\ r = r'.
Proof.
  unfold quoted. simpl. rewrite !append_assoc. simpl.
  intros H. injection H as H. now apply escape_prefix_free.
Qed.

(** ** Numerals *)

Lemma uint_digits d : all_chars is_digit (NilEmpty.string_of_uint d) = true.
Proof. induction d; simpl; auto. Qed.

Lemma int_repr_chars z : all_chars int_char (int_repr z) = true.
Proof.
  assert (Hu : forall d, all_chars int_char (NilZero.string_of_uint d) = true).
  { intros d. destruct d; try reflexivity;
      apply all_chars_weaken with (p := is_digit);
      try apply (uint_digits (_ d));
      intros c Hc; unfold int_char; rewrite Hc; reflexivity. }
  unfold int_repr. destruct (Z.to_int z) as [d | d]; simpl.
  - apply Hu.
  - apply Hu.
Qed.

Lemma int_repr_inj a b : int_repr a = int_repr b -> a = b.
Proof.
  unfold int_repr. intros H.
  apply DecimalZ.to_int_inj.
  assert (Hn : forall z, Z.to_int z <> Decimal.Pos Decimal.Nil /\ Z.to_int z <> Decimal.Neg Decimal.Nil).
  { intros [| p | p]; simpl; split; try discriminate;
      intros E; injection E as E; now apply (DecimalPos.Unsigned.to_uint_nonnil p). }
  apply (f_equal NilZero.int_of_string) in H.
  rewrite !NilZero.isi in H by apply Hn.
  now injection H.
Qed.

(** ** Literals and numerals end where a delimiter begins *)

Lemma token_split t : forall t' r r',
  all_chars token_char t = true -> all_chars token_char t' = true ->
  delimited r = true -> delimited r' = true ->
  t ++ r = t' ++ r' -> t = t' /\ r = r'.
Proof.
  induction t as [| c t IH]; intros [| c' t'] r r' Ht Ht' Hr Hr' H; simpl in *.
  - split; [reflexivity | exact H].
  - subst r. simpl in Hr. apply andb_true_iff in Ht' as [Hc _].
    rewrite Hc in Hr. discriminate.
  - subst r'. simpl in Hr'. apply andb_true_iff in Ht as [Hc _].
    rewrite Hc in Hr'. discriminate.
  - injection H as -> H.
    apply andb_true_iff in Ht as [_ Ht]. apply andb_true_iff in Ht' as [_ Ht'].
    destruct (IH _ _ _ Ht Ht' Hr Hr' H) as [-> ->]. split; reflexivity.
Qed.

Lemma int_repr_nonempty z : int_repr z <> "".
Proof.
  intros H. pose proof (int_repr_inj z (z + 1)) as Hinj.
  assert (Hn : forall z, Z.to_int z <> Decimal.Pos Decimal.Nil /\ Z.to_int z <> Decimal.Neg Decimal.Nil).
  { intros [| p | p]; simpl; split; try discriminate;
      intros E; injection E as E; now apply (DecimalPos.Unsigned.to_uint_nonnil p). }
  apply (f_equal NilZero.int_of_string) in H. unfold int_repr in H.
  rewrite NilZero.isi in H by apply Hn. discriminate.
Qed.

Lemma atom_token v :
  wf v -> shape_of v = Atom -> all_chars token_char (dumps v) = true.
Proof.
  destruct v as [| [] | z | r | | |]; simpl; intros Hwf Hs;
    try reflexivity; try discriminate.
  - apply all_chars_weaken with (p := int_char);
      [exact int_char_token | apply int_repr_chars].
  - unfold float_numeral in Hwf. apply andb_true_iff in Hwf as [Hf _].
    apply all_chars_weaken with (p := float_char);
      [exact float_char_token | exact Hf].
Qed.

Ltac not_an_int z H :=
  let C := fresh in
  pose proof (int_repr_chars z) as C;
  first [rewrite H in C | rewrite <- H in C]; discriminate C.

Lemma float_not_int r z : float_numeral r = true -> r <> int_repr z.
Proof.
  intros Hr ->. unfold float_numeral in Hr.
  rewrite int_repr_chars, andb_false_r in Hr. discriminate.
Qed.

Lemma atom_inj v w :
  wf v -> wf w -> shape_of v = Atom -> shape_of w = Atom ->
  dumps v = dumps w -> v = w.
Proof.
  destruct v as [| [] | z | r | | |], w as [| [] | z' | r' | | |];
    simpl; intros Hv Hw Sv Sw H;
    try reflexivity; try discriminate;
    try (subst; discriminate);
    try (not_an_int z H); try (not_an_int z' H).
  - f_equal. now apply int_repr_inj.
  - symmetry in H. now apply float_not_int in H.
  - now apply float_not_int in H.
  - now subst.
Qed.

Lemma lead_token c s : token_char c = true -> lead (String c s) = Some Atom.
Proof. by_cases_on_char c. Qed.

Lemma lead_dumps v r : wf v -> lead (dumps v ++ r) = Some (shape_of v).
Proof.
  intros Hwf.
  destruct (shape_of v) eqn:Sv.
  - pose proof (atom_token v Hwf Sv) as Ht.
    assert (Hne : dumps v <> "").
    { destruct v as [| [] | z | r0 | | |]; simpl in *; try discriminate.
      - apply int_repr_nonempty.
      - intros ->. discriminate Hwf. }
    destruct (dumps v) as [| c s]; [now elim Hne |].
    simpl in Ht. apply andb_true_iff in Ht as [Hc _].
    exact (lead_token c (s ++ r) Hc).
  - destruct v; try discriminate. reflexivity.
  - destruct v; try discriminate. reflexivity.
  - destruct v; try discriminate. reflexivity.
Qed.

Lemma same_shape v w r r' :
  wf v -> wf w -> dumps v ++ r = dumps w ++ r' -> shape_of v = shape_of w.
Proof.
  intros Hv Hw H. apply (f_equal lead) in H.
  rewrite !lead_dumps in H by assumption. now injection H.
Qed.

(** ** The text of a value determines the value *)

Lemma atom_prefix_free v : shape_of v = Atom -> prefix_free v.
Proof.
  intros Sv w r r' Hv Hw Hr Hr' H.
  assert (Sw : shape_of w = Atom) by (rewrite <- (same_shape _ _ _ _ Hv Hw H); exact Sv).
  destruct (token_split _ _ _ _ (atom_token _ Hv Sv) (atom_token _ Hw Sw) Hr Hr' H)
    as [E ->].
  split; [now apply atom_inj | reflexivity].
Qed.

Lemma more_delimited {A} (f : A -> string) l c r :
  token_char c = false -> delimited (more f l ++ String c r) = true.
Proof. intros Hc. destruct l; simpl; [now rewrite Hc | reflexivity]. Qed.

Lemma more_items_prefix_free l :
  all_items prefix_free l -> all_items wf l ->
  forall l' r r', all_items wf l' ->
    more dumps l ++ String "]" r = more dumps l' ++ String "]" r' ->
    l = l' /\ r = r'.
Proof.
  induction l as [| x l IH]; intros Hpf Hwf [| x' l'] r r' Hwf' H; simpl in *.
  - injection H as ->. split; reflexivity.
  - discriminate.
  - discriminate.
  - injection H as H. rewrite !append_assoc in H.
    destruct Hpf as [Hx Hl], Hwf as [Wx Wl], Hwf' as [Wx' Wl'].
    destruct (Hx x' _ _ Wx Wx' (more_delimited _ _ "]"%char _ eq_refl)
                (more_delimited _ _ "]"%char _ eq_refl) H) as [-> H'].
    destruct (IH Hl Wl _ _ _ Wl' H') as [-> ->]. split; reflexivity.
Qed.

Lemma item_chunk_prefix_free k x k' x' r r' :
  prefix_free x -> wf x -> wf x' ->
  delimited r = true -> delimited r' = true ->
  item_chunk (k, x) ++ r = item_chunk (k', x') ++ r' ->
  k = k' /\ x = x' /\ r = r'.
Proof.
  intros Hx Wx Wx' Hr Hr' H. unfold item_chunk in H.
  rewrite !append_assoc in H.
  apply quoted_prefix_free in H as [-> H].
  simpl in H. injection H as H.
  destruct (Hx _ _ _ Wx Wx' Hr Hr' H) as [-> ->]. repeat split.
Qed.

Lemma more_cons {A} (f : A -> string) y r :
  more f (y :: r) = ", " ++ f y ++ more f r.
Proof. reflexivity. Qed.

Lemma strip_separator a b : ", " ++ a = ", " ++ b -> a = b.
Proof. intros H. now injection H. Qed.

Lemma more_fields_prefix_free d :
  all_values prefix_free d -> all_values wf d ->
  forall d' r r', all_values wf d' ->
    more item_chunk d ++ String "}" r = more item_chunk d' ++ String "}" r' ->
    d = d' /\ r = r'.
Proof.
  induction d as [| [k x] d IH]; intros Hpf Hwf [| [k' x'] d'] r r' Hwf' H.
  - simpl in H. injection H as ->. split; reflexivity.
  - discriminate.
  - discriminate.
  - rewrite !more_cons, !append_assoc in H. apply strip_separator in H.
    simpl in Hpf, Hwf, Hwf'.
    destruct Hpf as [Hx Hl], Hwf as [Wx Wl], Hwf' as [Wx' Wl'].
    destruct (item_chunk_prefix_free _ _ _ _ _ _ Hx Wx Wx'
                (more_delimited _ _ "}"%char _ eq_refl)
                (more_delimited _ _ "}"%char _ eq_refl) H) as (-> & -> & H').
    destruct (IH Hl Wl _ _ _ Wl' H') as [-> ->]. split; reflexivity.
Qed.

Lemma dumps_arr l : dumps (JArr l) = String "[" (joined dumps l ++ "]").
Proof. reflexivity. Qed.

Lemma dumps_obj d : dumps (JObj d) = String "{" (joined item_chunk d ++ "}").
Proof. reflexivity. Qed.

Lemma close_bracket_no_value c r v r' :
  token_char c = false -> c <> dquote -> c <> "["%char -> c <> "{"%char ->
  wf v -> String c r <> dumps v ++ r'.
Proof.
  intros Hc H1 H2 H3 Hv H. apply (f_equal lead) in H.
  rewrite lead_dumps in H by exact Hv. simpl in H.
  destruct (Ascii.eqb_spec c dquote); [contradiction |].
  destruct (Ascii.eqb_spec c "["); [contradiction |].
  destruct (Ascii.eqb_spec c "{"); [contradiction |].
  rewrite Hc in H. discriminate.
Qed.

Lemma dumps_prefix_free v : prefix_free v.
Proof.
  induction v as [| b | z | f | s | l IHl | d IHd] using json_induction;
    try (apply atom_prefix_free; reflexivity).
  - intros w r r' Hv Hw Hr Hr' H.
    pose proof (same_shape _ _ _ _ Hv Hw H) as S.
    destruct w; try discriminate S. simpl in H.
    apply quoted_prefix_free in H as [-> ->]. split; reflexivity.
  - intros w r r' Hv Hw Hr Hr' H.
    pose proof (same_shape _ _ _ _ Hv Hw H) as S.
    destruct w as [| | | | | l' |]; try discriminate S.
    rewrite !dumps_arr in H. cbn [append] in H. injection H as H.
    rewrite !append_assoc in H. cbn [append] in H.
    simpl in Hv, Hw.
    destruct l as [| x l], l' as [| x' l']; cbn [joined] in H.
    + simpl in H. injection H as ->. split; reflexivity.
    + exfalso. rewrite append_assoc in H. cbn [append] in H.
      revert H. apply close_bracket_no_value; try discriminate; [reflexivity | apply Hw].
    + exfalso. rewrite append_assoc in H. cbn [append] in H. symmetry in H.
      revert H. apply close_bracket_no_value; try discriminate; [reflexivity | apply Hv].
    + rewrite !append_assoc in H.
      destruct IHl as [Hx Hl], Hv as [Wx Wl], Hw as [Wx' Wl'].
      destruct (Hx x' _ _ Wx Wx' (more_delimited _ _ "]"%char _ eq_refl)
                  (more_delimited _ _ "]"%char _ eq_refl) H) as [-> H'].
      destruct (more_items_prefix_free _ Hl Wl _ _ _ Wl' H') as [-> ->].
      split; reflexivity.
  - intros w r r' Hv Hw Hr Hr' H.
    pose proof (same_shape _ _ _ _ Hv Hw H) as S.
    destruct w as [| | | | | | d']; try discriminate S.
    rewrite !dumps_obj in H. cbn [append] in H. injection H as H.
    rewrite !append_assoc in H. cbn [append] in H.
    simpl in Hv, Hw. destruct Hv as [_ Hv], Hw as [_ Hw].
    destruct d as [| [k x] d], d' as [| [k' x'] d']; cbn [joined] in H.
    + simpl in H. injection H as ->. split; reflexivity.
    + exfalso. simpl in H. discriminate.
    + exfalso. simpl in H. discriminate.
    + rewrite !append_assoc in H. simpl in IHd, Hv, Hw.
      destruct IHd as [Hx Hl], Hv as [Wx Wl], Hw as [Wx' Wl'].
      destruct (item_chunk_prefix_free _ _ _ _ _ _ Hx Wx Wx'
                  (more_delimited _ _ "}"%char _ eq_refl)
                  (more_delimited _ _ "}"%char _ eq_refl) H) as (-> & -> & H').
      destruct (more_fields_prefix_free _ Hl Wl _ _ _ Wl' H') as [-> ->].
      split; reflexivity.
Qed.

Lemma dumps_inj v w : wf v -> wf w -> dumps v = dumps w -> v = w.
Proof.
  intros Hv Hw H.
  apply (dumps_prefix_free v w "" "" Hv Hw eq_refl eq_refl).
  now rewrite !append_nil_r.
Qed.

(** ** Sorting the items of a dict *)


Lemma compare_lt_trans a b c :
  String.compare a b = Lt -> String.compare b c = Lt -> String.compare a c = Lt.
Proof.
  intros H1 H2. apply OrderedTypeEx.String_as_OT.cmp_lt in H1, H2.
  apply OrderedTypeEx.String_as_OT.cmp_lt. eapply OrderedTypeEx.String_as_OT.lt_trans; eassumption.
Qed.

Lemma compare_lt_irrefl a : String.compare a a <> Lt.
Proof.
  assert (E : String.compare a a = Eq) by now apply OrderedTypeEx.String_as_OT.cmp_eq.
  rewrite E. discriminate.
Qed.

Lemma leb_false_lt k k' : String.leb k k' = false -> String.compare k' k = Lt.
Proof.
  unfold String.leb. rewrite (String.compare_antisym k' k).
  destruct (String.compare k k'); try discriminate. reflexivity.
Qed.

Lemma leb_true_lt k k' :
  String.leb k k' = true -> k <> k' -> String.compare k k' = Lt.
Proof.
  unfold String.leb. intros H Hne.
  destruct (String.compare k k') eqn:E; try discriminate.
  - apply String.compare_eq_iff in E. contradiction.
  - reflexivity.
Qed.

Lemma insert_item_perm kv d : Permutation (insert_item kv d) (kv :: d).
Proof.
  induction d as [| kv' d IH]; simpl; [apply Permutation_refl |].
  destruct (String.leb (fst kv) (fst kv')); [apply Permutation_refl |].
  eapply perm_trans; [apply perm_skip; exact IH | apply perm_swap].
Qed.

Lemma sort_items_perm d : Permutation (sort_items d) d.
Proof.
  induction d as [| kv d IH]; simpl; [constructor |].
  eapply perm_trans; [apply insert_item_perm | now apply perm_skip].
Qed.

Lemma insert_item_sorted kv d :
  StronglySorted key_lt d -> ~ In (fst kv) (keys d) ->
  StronglySorted key_lt (insert_item kv d).
Proof.
  induction d as [| kv' d IH]; simpl; intros Hs Hk.
  - repeat constructor.
  - apply StronglySorted_inv in Hs as [Hs Hall].
    destruct (String.leb (fst kv) (fst kv')) eqn:E.
    + assert (Hlt : key_lt kv kv').
      { apply leb_true_lt; [exact E | intros Heq; apply Hk; now left]. }
      constructor; [now constructor |].
      constructor; [exact Hlt |].
      eapply Forall_impl; [| exact Hall].
      intros c Hc. unfold key_lt in *. eapply compare_lt_trans; eassumption.
    + constructor.
      * apply IH; [exact Hs | intros Hin; apply Hk; now right].
      * apply (Permutation_Forall (x := kv :: d)).
        -- apply Permutation_sym, insert_item_perm.
        -- constructor; [now apply leb_false_lt | exact Hall].
Qed.

Lemma keys_perm d d' : Permutation d d' -> Permutation (keys d) (keys d').
Proof. apply Permutation_map. Qed.

Lemma sort_items_sorted d :
  NoDup (keys d) -> StronglySorted key_lt (sort_items d).
Proof.
  induction d as [| kv d IH]; simpl; intros Hnd; [constructor |].
  inversion Hnd as [| k ks Hk Hnd' E]; subst.
  apply insert_item_sorted; [now apply IH |].
  intros Hin. apply Hk.
  eapply Permutation_in; [apply keys_perm, sort_items_perm | exact Hin].
Qed.

Lemma sorted_perm_eq l : forall l',
  StronglySorted key_lt l -> StronglySorted key_lt l' ->
  Permutation l l' -> l = l'.
Proof.
  induction l as [| a l IH]; intros [| a' l'] Hs Hs' Hp.
  - reflexivity.
  - apply Permutation_nil in Hp. discriminate.
  - apply Permutation_sym, Permutation_nil in Hp. discriminate.
  - apply StronglySorted_inv in Hs as [Hs Ha].
    apply StronglySorted_inv in Hs' as [Hs' Ha'].
    assert (E : a = a').
    { assert (Hin : In a (a' :: l')) by (eapply Permutation_in; [exact Hp | now left]).
      assert (Hin' : In a' (a :: l))
        by (eapply Permutation_in; [apply Permutation_sym; exact Hp | now left]).
      destruct Hin as [-> | Hin]; [reflexivity |].
      destruct Hin' as [-> | Hin']; [reflexivity |].
      rewrite Forall_forall in Ha, Ha'.
      exfalso. apply (compare_lt_irrefl (fst a)).
      eapply compare_lt_trans; [apply (Ha _ Hin') | apply (Ha' _ Hin)]. }
    subst a'. f_equal. apply IH; try assumption.
    eapply Permutation_cons_inv; exact Hp.
Qed.

Lemma sort_items_unique d d' :
  NoDup (keys d) -> Permutation d d' -> sort_items d = sort_items d'.
Proof.
  intros Hnd Hp. apply sorted_perm_eq.
  - now apply sort_items_sorted.
  - apply sort_items_sorted.
    eapply Permutation_NoDup; [apply keys_perm; exact Hp | exact Hnd].
  - eapply perm_trans; [apply sort_items_perm |].
    eapply perm_trans; [exact Hp | apply Permutation_sym, sort_items_perm].
Qed.

(** ** Values with the same pairs have the same sorted form *)

Lemma sort_keys_obj d : sort_keys (JObj d) = JObj (sort_items (map sorted_item d)).
Proof. reflexivity. Qed.

Lemma keys_sorted_item d : keys (map sorted_item d) = keys d.
Proof.
  unfold keys. rewrite map_map. apply map_ext. now intros [k x].
Qed.

Lemma all_items_Forall P l : all_items P l <-> Forall P l.
Proof.
  induction l as [| x l IH]; simpl; split; intros H.
  - constructor.
  - exact I.
  - constructor; [apply H | apply IH, H].
  - inversion H; subst. split; [assumption | now apply IH].
Qed.

Lemma all_values_Forall P d : all_values P d <-> Forall (fun kv => P (snd kv)) d.
Proof.
  induction d as [| [k x] d IH]; simpl; split; intros H.
  - constructor.
  - exact I.
  - constructor; [apply H | apply IH, H].
  - inversion H; subst. split; [assumption | now apply IH].
Qed.

Lemma wf_sort_keys v : wf v -> wf (sort_keys v).
Proof.
  induction v as [| b | z | f | s | l IHl | d IHd] using json_induction;
    simpl; auto.
  - intros H. induction l as [| x l IH]; simpl in *; [exact I |].
    destruct IHl as [Hx Hl], H as [Wx Wl]. split; [now apply Hx | now apply IH].
  - intros [Hnd Hw]. fold sorted_item. split.
    + eapply Permutation_NoDup;
        [apply Permutation_sym, keys_perm, sort_items_perm |].
      now rewrite keys_sorted_item.
    + apply all_values_Forall.
      eapply Permutation_Forall; [apply Permutation_sym, sort_items_perm |].
      apply all_values_Forall in IHd, Hw.
      apply Forall_map. rewrite Forall_forall in *.
      intros [k x] Hin. simpl. apply (IHd _ Hin), (Hw _ Hin).
Qed.

Lemma same_pairs_sort_keys a :
  forall b, wf a -> same_pairs a b -> sort_keys a = sort_keys b.
Proof.
  induction a as [| b0 | z | f | s | l IHl | d IHd] using json_induction;
    intros b Hwf H; inversion H; subst; try reflexivity.
  - simpl. f_equal. simpl in Hwf.
    match goal with Hf : Forall2 _ _ _ |- _ => rename Hf into HF end.
    clear H.
    induction HF as [| x y l l' Hxy HF IH]; simpl in *; [reflexivity |].
    destruct IHl as [Hx Hl], Hwf as [Wx Wl].
    f_equal; [now apply Hx | apply IH; assumption].
  - rewrite !sort_keys_obj. f_equal. simpl in Hwf. destruct Hwf as [Hnd Hw].
    match goal with Hp : Permutation _ _ |- _ => rename Hp into HP end.
    match goal with Hf : Forall2 _ _ _ |- _ => rename Hf into HF end.
    transitivity (sort_items (map sorted_item e)).
    + apply sort_items_unique; [now rewrite keys_sorted_item |].
      now apply Permutation_map.
    + f_equal.
      apply all_values_Forall in IHd, Hw.
      assert (He : Forall (fun kv => wf (snd kv) /\
                    forall b, wf (snd kv) -> same_pairs (snd kv) b ->
                              sort_keys (snd kv) = sort_keys b) e).
      { eapply Permutation_Forall; [exact HP |].
        rewrite Forall_forall in *. intros kv Hin. split; auto. }
      clear HP IHd Hw Hnd H.
      induction HF as [| [k x] [k' y] e d' [Hk Hxy] HF IH]; simpl in *;
        [reflexivity |].
      inversion He as [| ? ? [Wx Hx] He']; subst.
      f_equal; [f_equal; now apply Hx | now apply IH].
Qed.

Lemma sort_keys_same_pairs a :
  forall b, wf a -> wf b -> sort_keys a = sort_keys b -> same_pairs a b.
Proof.
  induction a as [| b0 | z | f | s | l IHl | d IHd] using json_induction;
    intros b Wa Wb H; destruct b as [| b1 | z1 | f1 | s1 | l1 | d1];
    simpl in H; try discriminate; try (injection H as <-); try constructor.
  - simpl in Wa, Wb. injection H as H. revert l1 Wb H.
    induction l as [| x l IH]; intros [| y l1] Wb H; simpl in *;
      try discriminate; constructor.
    + injection H as Hxy _. destruct IHl as [Hx _].
      apply Hx; [apply Wa | apply Wb | exact Hxy].
    + injection H as _ Hl. destruct IHl as [_ Hl'].
      apply IH; [exact Hl' | apply Wa | apply Wb | exact Hl].
  - injection H as H. fold sorted_item in H. simpl in Wa, Wb.
    destruct Wa as [_ Wa], Wb as [_ Wb].
    assert (HP : Permutation (map sorted_item d1) (map sorted_item d)).
    { eapply perm_trans; [apply Permutation_sym, sort_items_perm |].
      rewrite <- H. apply sort_items_perm. }
    apply Permutation_map_inv in HP as (e & He & HP).
    apply SameObj with (e := e); [exact HP |].
    apply all_values_Forall in IHd, Wa, Wb.
    assert (HE : Forall (fun kv => wf (snd kv) /\
                    forall b, wf (snd kv) -> wf b ->
                              sort_keys (snd kv) = sort_keys b ->
                              same_pairs (snd kv) b) e).
    { eapply Permutation_Forall; [exact HP |].
      rewrite Forall_forall in *. intros kv Hin. split; auto. }
    clear HP IHd Wa H. revert d1 He Wb.
    induction e as [| [k x] e IH]; intros [| [k' y] d1] He Wb; simpl in *;
      try discriminate; constructor.
    + injection He as -> Hxy _. inversion HE as [| ? ? [Wx Hx] _]; subst.
      inversion Wb; subst. simpl in *. split; [reflexivity |].
      apply Hx; auto.
    + injection He as _ _ He. inversion HE; subst. inversion Wb; subst.
      apply IH; assumption.
Qed.

Lemma same_pairs_refl v : same_pairs v v.
Proof.
  induction v as [| b | z | f | s | l IHl | d IHd] using json_induction;
    try constructor.
  - apply all_items_Forall in IHl.
    induction IHl; constructor; assumption.
  - apply SameObj with (e := d); [apply Permutation_refl |].
    apply all_values_Forall in IHd.
    induction IHd; constructor; [split; [reflexivity | assumption] | assumption].
Qed.

Lemma fingerprint_iff a b :
  wf a -> wf b -> (fingerprint a = fingerprint b <-> same_pairs a b).
Proof.
  intros Wa Wb. unfold fingerprint. split.
  - intros H. apply sort_keys_same_pairs; try assumption.
    apply dumps_inj; [now apply wf_sort_keys | now apply wf_sort_keys | exact H].
  - intros H. f_equal. now apply same_pairs_sort_keys.
Qed.

(** C4.  Two configurations have the same fingerprint exactly when they
    hold the same key/value pairs whatever the order of the keys, at every
    depth; so a fingerprint does not change when the items of a mapping
    are reordered, and two configurations that differ in a pair, be it in
    the order of the elements of an array, have different fingerprints. *)
Theorem fingerprint_same_pairs a b :
  wf a -> wf b ->
  (fingerprint a = fingerprint b <-> same_pairs a b) /\
  (forall d d', a = JObj d -> b = JObj d' -> Permutation d d' ->
                fingerprint a = fingerprint b) /\
  (~ same_pairs a b -> fingerprint a <> fingerprint b).
Proof.
  intros Wa Wb. pose proof (fingerprint_iff a b Wa Wb) as Hiff.
  split; [exact Hiff |]. split.
  - intros d d' -> -> Hp. apply Hiff.
    apply SameObj with (e := d'); [exact Hp |].
    clear. induction d' as [| kv d' IH]; constructor;
      [split; [reflexivity | apply same_pairs_refl] | exact IH].
  - intros Hn H. apply Hn, Hiff, H.
Qed.

(** ** A value is written on one line *)

Lemma has_char_append c a b :
  has_char c (a ++ b) = has_char c a || has_char c b.
Proof.
  induction a as [| x a IH]; simpl; [reflexivity |].
  now rewrite IH, orb_assoc.
Qed.

Lemma escape_char_one_line c : has_char "010" (escape_char c) = false.
Proof. by_cases_on_char c. Qed.

Lemma escape_one_line s : has_char "010" (escape s) = false.
Proof.
  induction s as [| c s IH]; simpl; [reflexivity |].
  now rewrite has_char_append, escape_char_one_line, IH.
Qed.

Lemma quoted_one_line s : has_char "010" (quoted s) = false.
Proof.
  unfold quoted. cbn [has_char].
  now rewrite has_char_append, escape_one_line.
Qed.

Lemma token_one_line s :
  all_chars token_char s = true -> has_char "010" s = false.
Proof.
  induction s as [| c s IH]; simpl; [reflexivity |].
  intros H. apply andb_true_iff in H as [Hc Hs]. rewrite (IH Hs).
  destruct (Ascii.eqb_spec c "010") as [-> |]; [discriminate Hc | reflexivity].
Qed.

Lemma joined_one_line {A} (f : A -> string) l :
  Forall (fun x => has_char "010" (f x) = false) l ->
  has_char "010" (joined f l) = false.
Proof.
  intros H. destruct H as [| x l Hx Hl]; [reflexivity |].
  cbn [joined]. rewrite has_char_append, Hx. cbn [orb].
  induction Hl as [| y l Hy Hl IH]; [reflexivity |].
  rewrite more_cons, !has_char_append, Hy, IH. reflexivity.
Qed.

(** The text of a well-formed value has no line feed in it, so a response
    is one line of standard output. *)
Lemma dumps_one_line v : wf v -> has_char "010" (dumps v) = false.
Proof.
  induction v as [| b | z | f | s | l IHl | d IHd] using json_induction;
    intros Hwf.
  - reflexivity.
  - now destruct b.
  - apply token_one_line, (atom_token (JInt z)); [exact I | reflexivity].
  - apply token_one_line, (atom_token (JFloat f)); [exact Hwf | reflexivity].
  - apply quoted_one_line.
  - rewrite dumps_arr. cbn [has_char]. rewrite has_char_append.
    rewrite joined_one_line; [reflexivity |].
    simpl in Hwf. apply all_items_Forall in IHl, Hwf.
    rewrite Forall_forall in *. intros x Hin. now apply IHl, Hwf.
  - rewrite dumps_obj. cbn [has_char]. rewrite has_char_append.
    rewrite joined_one_line; [reflexivity |].
    simpl in Hwf. destruct Hwf as [_ Hwf].
    apply all_values_Forall in IHd, Hwf.
    rewrite Forall_forall in *. intros [k x] Hin. unfold item_chunk.
    rewrite !has_char_append, quoted_one_line.
    specialize (IHd _ Hin (Hwf _ Hin)). simpl in IHd. now rewrite IHd.
Qed.

(** ** The requests read from standard input *)

Lemma iter_requests_filter stdin :
  iter_requests stdin
  = filter (fun line => negb (String.eqb line "")) (map strip stdin).
Proof.
  induction stdin as [| raw rest IH]; simpl; [reflexivity |].
  destruct (String.eqb (strip raw) ""); simpl; now rewrite IH.
Qed.

(** ** [str.strip()] *)

Lemma lstrip_no_leading_space s : starts_with_space (lstrip s) = false.
Proof.
  induction s as [| c s IH]; simpl; [reflexivity |].
  destruct (is_space c) eqn:E; [exact IH | simpl; exact E].
Qed.

Lemma rstrip_no_trailing_space s : ends_with_space (rstrip s) = false.
Proof.
  induction s as [| c s IH]; simpl; [reflexivity |].
  destruct (rstrip s) as [| x y] eqn:E.
  - destruct (is_space c) eqn:Ec; simpl; [reflexivity | exact Ec].
  - exact IH.
Qed.

Lemma rstrip_keeps_head s :
  starts_with_space s = false -> starts_with_space (rstrip s) = false.
Proof.
  destruct s as [| c s]; simpl; [reflexivity |]. intros Hc.
  destruct (rstrip s); [rewrite Hc |]; simpl; exact Hc.
Qed.

Lemma lstrip_fixed s : starts_with_space s = false -> lstrip s = s.
Proof. destruct s as [| c s]; simpl; [reflexivity | now intros ->]. Qed.

Lemma rstrip_fixed s : ends_with_space s = false -> rstrip s = s.
Proof.
  induction s as [| c s IH]; [reflexivity |].
  cbn [ends_with_space rstrip]. destruct s as [| x y].
  - simpl. now intros ->.
  - intros H. now rewrite (IH H).
Qed.

Lemma lstrip_blank s : all_chars is_space s = true -> lstrip s = "".
Proof.
  induction s as [| c s IH]; simpl; [reflexivity |].
  intros H. apply andb_true_iff in H as [Hc Hs]. now rewrite Hc, IH.
Qed.

(** X1.  [iter_requests] yields, in the order of the input, the stripped
    lines that are not empty; a line it yields has no white space at
    either end, so that stripping it again changes nothing. *)
Theorem iter_requests_yields_stripped_lines stdin :
  iter_requests stdin
  = filter (fun line => negb (String.eqb line "")) (map strip stdin) /\
  forall line, In line (iter_requests stdin) ->
    line <> "" /\
    starts_with_space line = false /\ ends_with_space line = false /\
    strip line = line.
Proof.
  assert (Hf : iter_requests stdin
               = filter (fun line => negb (String.eqb line "")) (map strip stdin)).
  { induction stdin as [| raw rest IH]; simpl; [reflexivity |].
    destruct (String.eqb (strip raw) ""); simpl; now rewrite IH. }
  split; [exact Hf |].
  intros line Hin. rewrite Hf in Hin. apply filter_In in Hin as [Hin Hne].
  apply in_map_iff in Hin as (raw & <- & _).
  assert (Hs : starts_with_space (strip raw) = false)
    by apply rstrip_keeps_head, lstrip_no_leading_space.
  assert (He : ends_with_space (strip raw) = false)
    by apply rstrip_no_trailing_space.
  repeat split; try assumption.
  - intros E. rewrite E in Hne. discriminate.
  - unfold strip at 1. now rewrite (lstrip_fixed _ Hs), (rstrip_fixed _ He).
Qed.

(** A line of white space yields no request. *)
Lemma iter_requests_blank stdin :
  (forall raw, In raw stdin -> all_chars is_space raw = true) ->
  iter_requests stdin = [].
Proof.
  induction stdin as [| raw rest IH]; intros H; simpl; [reflexivity |].
  unfold strip. rewrite lstrip_blank by (apply H; now left). simpl.
  apply IH. intros r Hr. apply H. now right.
Qed.

(** ** The characters of a response line *)

Lemma all_chars_append p a b :
  all_chars p (a ++ b) = all_chars p a && all_chars p b.
Proof.
  induction a as [| x a IH]; simpl; [reflexivity |].
  now rewrite IH, andb_assoc.
Qed.

Lemma escape_char_printable c : all_chars ascii_printable (escape_char c) = true.
Proof. by_cases_on_char c. Qed.

Lemma quoted_printable s : all_chars ascii_printable (quoted s) = true.
Proof.
  unfold quoted. cbn [all_chars]. rewrite all_chars_append.
  replace (all_chars ascii_printable (escape s)) with true; [reflexivity |].
  induction s as [| c s IH]; simpl; [reflexivity |].
  now rewrite all_chars_append, escape_char_printable, <- IH.
Qed.

Lemma token_char_printable c : token_char c = true -> ascii_printable c = true.
Proof. by_cases_on_char c. Qed.

Lemma joined_printable {A} (f : A -> string) l :
  Forall (fun x => all_chars ascii_printable (f x) = true) l ->
  all_chars ascii_printable (joined f l) = true.
Proof.
  intros H. destruct H as [| x l Hx Hl]; [reflexivity |].
  cbn [joined]. rewrite all_chars_append, Hx. cbn [andb].
  induction Hl as [| y l Hy Hl IH]; [reflexivity |].
  rewrite more_cons, !all_chars_append, Hy, IH. reflexivity.
Qed.

Lemma all_chars_has_char p c s :
  all_chars p s = true -> p c = false -> has_char c s = false.
Proof.
  intros Hs Hc. induction s as [| x s IH]; simpl in *; [reflexivity |].
  apply andb_true_iff in Hs as [Hx Hs]. rewrite (IH Hs).
  destruct (Ascii.eqb_spec x c) as [-> |]; [congruence | reflexivity].
Qed.

Lemma dumps_printable v : wf v -> all_chars ascii_printable (dumps v) = true.
Proof.
  induction v as [| b | z | f | s | l IHl | d IHd] using json_induction;
    intros Hwf.
  - reflexivity.
  - now destruct b.
  - apply all_chars_weaken with (p := token_char);
      [exact token_char_printable |].
    apply (atom_token (JInt z)); [exact I | reflexivity].
  - apply all_chars_weaken with (p := token_char);
      [exact token_char_printable |].
    apply (atom_token (JFloat f)); [exact Hwf | reflexivity].
  - apply quoted_printable.
  - rewrite dumps_arr. cbn [all_chars]. rewrite all_chars_append.
    rewrite joined_printable; [reflexivity |].
    simpl in Hwf. apply all_items_Forall in IHl, Hwf.
    rewrite Forall_forall in *. intros x Hin. now apply IHl, Hwf.
  - rewrite dumps_obj. cbn [all_chars]. rewrite all_chars_append.
    rewrite joined_printable; [reflexivity |].
    simpl in Hwf. destruct Hwf as [_ Hwf].
    apply all_values_Forall in IHd, Hwf.
    rewrite Forall_forall in *. intros [k x] Hin. unfold item_chunk.
    rewrite !all_chars_append, quoted_printable.
    specialize (IHd _ Hin (Hwf _ Hin)). simpl in IHd. now rewrite IHd.
Qed.

(** X7.  The text [json.dumps] writes for a response is made of printable
    ASCII characters only, so it holds no line feed and no carriage return
    and is one line of output, whatever the strings inside the value; so
    is the text of an error response, whatever its message. *)
Theorem response_is_one_printable_line v :
  wf v ->
  all_chars ascii_printable (dumps v) = true /\
  has_char "010" (dumps v) = false /\ has_char "013" (dumps v) = false /\
  forall msg, all_chars ascii_printable (dumps (error_response msg)) = true.
Proof.
  intros Hwf. pose proof (dumps_printable v Hwf) as Hp.
  split; [exact Hp |].
  split; [now apply (all_chars_has_char ascii_printable) |].
  split; [now apply (all_chars_has_char ascii_printable) |].
  intros msg. apply dumps_printable. simpl. split; [| exact (conj I I)].
  constructor; [intros [] | constructor].
Qed.

(* ================================================================== *)
(** * 7. The request loop, the cache and the register command *)
(* ================================================================== *)

Local Open Scope list_scope.

Section BridgeFacts.
Context {handle env : Type}.
Variable argv : list string.
Variable json_loads : string -> string + json.
Variable vmm : Collaborators handle env.


(** Symbolic execution of a computation of the bridge: unfold the monad,
    then split on the outcome of each call as it is reached. *)
Ltac unfold_monad :=
  unfold bind, ret, raise, lift, try_except, attempt, call, traced,
    print_json, printed, log in *;
  cbn [outside calls stdout fst snd] in *.

Ltac innermost x :=
  lazymatch x with
  | context [match ?y with _ => _ end] => innermost y
  | _ => x
  end.

Ltac split_outcomes :=
  repeat match goal with
    | H : (_, _) = (_, _) |- _ => injection H as <- <-
    | H : context [match ?x with _ => _ end] |- _ =>
        let y := innermost x in
        destruct y eqn:?; cbn [outside calls stdout fst snd] in H
    end.

(** The history after a run is the history before it and what the run
    added: bring the history to the shape [calls w ++ added], then name
    what was added. *)
Ltac normalize_history :=
  cbn [outside calls stdout] in *; repeat rewrite <- app_assoc; cbn [app].

Ltac history :=
  first [ reflexivity | exact (eq_sym (app_nil_r _)) ].

(** Which entry of a history written out in full a given call is. *)
Ltac which_event Hin :=
  repeat (destruct Hin as [?E | Hin]; [try discriminate |]);
  try contradiction.

Lemma resolutions_app (l l' : list (event handle)) :
  resolutions (l ++ l') = resolutions l + resolutions l'.
Proof. unfold resolutions. now rewrite filter_app, length_app. Qed.

Lemma saves_app (l l' : list (event handle)) :
  saves (l ++ l') = saves l + saves l'.
Proof. unfold saves. now rewrite filter_app, length_app. Qed.

Lemma reinforcements_app (l l' : list (event handle)) :
  reinforcements (l ++ l') = reinforcements l + reinforcements l'.
Proof. unfold reinforcements. now rewrite filter_app, length_app. Qed.

(** *** [load_manager] and [ensure_manager] *)

Lemma load_manager_history config w w' r :
  load_manager argv vmm config w = (w', r) ->
  exists new,
    calls w' = calls w ++ new /\
    stdout w' = stdout w /\
    resolutions new = 1 /\
    In (Resolved config r) new /\
    (forall m, r = inr m -> source_of new m config).
Proof.
  unfold load_manager, construct_from. unfold_monad. intros H.
  split_outcomes.
  all: normalize_history; eexists; split; [history |];
    split; [reflexivity |]; split; [reflexivity |];
    split; [cbn [In]; tauto |];
    intros m' E; try discriminate E; first [injection E as <- | subst].
  all: unfold source_of; cbn [In]; eauto 8.
Qed.

Lemma ensure_manager_hit m config w :
  ensure_manager argv vmm (Some m) (Some (fingerprint config)) config w
  = (w, inr (m, fingerprint config)).
Proof.
  unfold ensure_manager, hash_eqb.
  now rewrite String.eqb_refl.
Qed.

Lemma resolved_as_more (l l' : list (event handle)) m config :
  resolved_as l m config -> resolved_as (l ++ l') m config.
Proof.
  unfold resolved_as, restored, constructed_from.
  intros [Hin [[p Hr] | (kw & Hk & Hc)]]; split;
    try (apply in_or_app; now left).
  - left. exists p. apply in_or_app. now left.
  - right. exists kw. split; [exact Hk | apply in_or_app; now left].
Qed.

(** [ensure_manager] returns the fingerprint of the configuration it was
    given, with the cached manager on a hit and a manager out of
    [load_manager] otherwise. *)
Lemma ensure_manager_history mo co config w w' r :
  ensure_manager argv vmm mo co config w = (w', r) ->
  (w' = w /\ exists m, mo = Some m /\ co = Some (fingerprint config) /\
                       r = inr (m, fingerprint config)) \/
  (exists new,
      calls w' = calls w ++ new /\ stdout w' = stdout w /\
      resolutions new = 1 /\
      forall m fp, r = inr (m, fp) ->
        fp = fingerprint config /\
        In (Resolved config (inr m)) new /\ source_of new m config).
Proof.
  unfold ensure_manager. intros H.
  assert (Hmiss :
    bind (load_manager argv vmm config) (fun m' => ret (m', fingerprint config)) w = (w', r) ->
    exists new,
      calls w' = calls w ++ new /\ stdout w' = stdout w /\
      resolutions new = 1 /\
      forall m fp, r = inr (m, fp) ->
        fp = fingerprint config /\
        In (Resolved config (inr m)) new /\ source_of new m config).
  { clear H. unfold bind, ret. intros H.
    destruct (load_manager argv vmm config w) as [w1 r1] eqn:E.
    apply load_manager_history in E as (new & Hc & Ho & Hn & Hin & Hs).
    exists new.
    destruct r1 as [e | m1]; injection H as <- <-;
      repeat split; try assumption; try discriminate.
    - now injection H.
    - injection H as <- <-. exact Hin.
    - injection H as <- <-. now apply Hs. }
  destruct mo as [m |]; [| right; now apply Hmiss].
  destruct (hash_eqb co (fingerprint config)) eqn:E; [| right; now apply Hmiss].
  left. unfold ret in H. injection H as <- <-. split; [reflexivity |].
  exists m. repeat split.
  destruct co as [c |]; simpl in E; [| discriminate].
  apply String.eqb_eq in E. now subst.
Qed.

(** *** [register_and_reinforce] *)

Lemma register_history m payload w w' r :
  register_and_reinforce argv vmm m payload w = (w', r) ->
  exists new,
    calls w' = calls w ++ new /\ stdout w' = stdout w /\ resolutions new = 0.
Proof.
  unfold register_and_reinforce, persist_manager.
  unfold_monad. intros H. split_outcomes.
  all: normalize_history; eexists; split; [history |]; split; reflexivity.
Qed.

(** *** The second [try] block *)

Lemma run_command_total m command payload w :
  exists w' result new,
    run_command argv vmm m command payload w = (w', inr result) /\
    calls w' = calls w ++ new /\ stdout w' = stdout w /\
    resolutions new = 0.
Proof.
  unfold run_command, try_except.
  destruct (eq_str command "register").
  - destruct (register_and_reinforce argv vmm m payload w) as [w1 [e | v]] eqn:E;
      apply register_history in E as (new & Hc & Ho & Hn);
      exists w1; eexists; exists new; repeat split; assumption.
  - exists w; eexists; exists []. repeat split. now rewrite app_nil_r.
Qed.

Lemma run_command_unsupported m command payload w :
  eq_str command "register" = false ->
  run_command argv vmm m command payload w
  = (w, inr (error_response ("Unsupported command: " ++ py_str command))).
Proof. unfold run_command, try_except. now intros ->. Qed.

(** *** One iteration of the loop, case by case *)

Lemma get_object payload k default v :
  get payload k default = inr v ->
  exists d, payload = JObj d /\ v = item_or k d default.
Proof.
  destruct payload; simpl; intros H; try discriminate.
  injection H as <-. eauto.
Qed.

Lemma get_not_object payload k default :
  (forall d, payload <> JObj d) -> get payload k default = inl (no_get payload).
Proof.
  destruct payload; intros H; try reflexivity. now elim (H fields).
Qed.

Lemma process_request_invalid s raw msg w :
  json_loads raw = inl msg ->
  process_request argv json_loads vmm s raw w
  = (printed (error_response ("Invalid JSON payload: " ++ msg)) w,
     inr (s, Continue)).
Proof. unfold process_request. now intros ->. Qed.

Lemma process_request_not_object s raw payload w :
  json_loads raw = inr payload -> (forall d, payload <> JObj d) ->
  process_request argv json_loads vmm s raw w = (w, inl (no_get payload)).
Proof.
  unfold process_request. intros -> H.
  unfold bind, lift. now rewrite get_not_object.
Qed.

Lemma process_request_shutdown s raw d w :
  json_loads raw = inr (JObj d) ->
  eq_str (item_or "command" d JNull) "__shutdown__" = true ->
  process_request argv json_loads vmm s raw w
  = (printed (JObj [("ok", JBool true); ("command", JStr "__shutdown__")]) w,
     inr (s, Return)).
Proof.
  unfold process_request. intros -> H.
  unfold bind, lift. cbn [get]. now rewrite H.
Qed.

Lemma process_request_no_config s raw d w :
  json_loads raw = inr (JObj d) ->
  eq_str (item_or "command" d JNull) "__shutdown__" = false ->
  is_object (item_or "config" d JNull) = false ->
  process_request argv json_loads vmm s raw w
  = (printed (error_response "Missing manager configuration") w,
     inr (s, Continue)).
Proof.
  unfold process_request. intros -> H Hc.
  unfold bind, lift. cbn [get]. rewrite H.
  destruct (item_or "config" d JNull); try reflexivity. discriminate.
Qed.

Lemma process_request_failed s raw d c w w1 e :
  json_loads raw = inr (JObj d) ->
  eq_str (item_or "command" d JNull) "__shutdown__" = false ->
  item_or "config" d JNull = JObj c ->
  ensure_manager argv vmm (manager s) (cached_config_hash s) (JObj c) w = (w1, inl e) ->
  process_request argv json_loads vmm s raw w
  = (printed (error_response ("Failed to initialize manager: " ++ exn_str e)) w1,
     inr (s, Continue)).
Proof.
  unfold process_request. intros -> H Hc He.
  unfold bind, lift, attempt. cbn [get]. now rewrite H, Hc, He.
Qed.

Lemma process_request_resolved s raw d c w w1 m fp w2 result :
  json_loads raw = inr (JObj d) ->
  eq_str (item_or "command" d JNull) "__shutdown__" = false ->
  item_or "config" d JNull = JObj c ->
  ensure_manager argv vmm (manager s) (cached_config_hash s) (JObj c) w = (w1, inr (m, fp)) ->
  run_command argv vmm m (item_or "command" d JNull) (JObj d) w1 = (w2, inr result) ->
  process_request argv json_loads vmm s raw w
  = (printed result w2,
     inr ({| manager := Some m; cached_config_hash := Some fp |}, Continue)).
Proof.
  unfold process_request. intros -> H Hc He Hr.
  unfold bind, lift, attempt. cbn [get]. now rewrite H, Hc, He, Hr.
Qed.

(** What one iteration does to the session, the history and the output,
    whenever it does not let an exception out. *)
Lemma process_request_step s raw w w' s' c :
  process_request argv json_loads vmm s raw w = (w', inr (s', c)) ->
  exists new line,
    calls w' = calls w ++ new /\ stdout w' = stdout w ++ [line] /\
    resolutions new <= 1 /\
    (s' = s \/
     exists config m,
       s' = {| manager := Some m;
               cached_config_hash := Some (fingerprint config) |} /\
       ((manager s = Some m /\
         cached_config_hash s = Some (fingerprint config)) \/
        (In (Resolved config (inr m)) new /\ source_of new m config))).
Proof.
  intros H.
  destruct (json_loads raw) as [msg | payload] eqn:El.
  { rewrite (process_request_invalid _ _ _ _ El) in H. injection H as <- <- <-.
    exists [], (dumps (error_response ("Invalid JSON payload: " ++ msg))).
    rewrite app_nil_r. repeat split; auto. }
  destruct (is_object payload) eqn:Eo.
  2:{ rewrite (process_request_not_object _ _ _ _ El) in H; [discriminate |].
      intros d ->. discriminate. }
  destruct payload as [| | | | | | d]; try discriminate. clear Eo.
  destruct (eq_str (item_or "command" d JNull) "__shutdown__") eqn:Ec.
  { rewrite (process_request_shutdown _ _ _ _ El Ec) in H. injection H as <- <- <-.
    eexists [], _. rewrite app_nil_r. repeat split; auto. }
  destruct (is_object (item_or "config" d JNull)) eqn:Eg.
  2:{ rewrite (process_request_no_config _ _ _ _ El Ec Eg) in H.
      injection H as <- <- <-.
      eexists [], _. rewrite app_nil_r. repeat split; auto. }
  destruct (item_or "config" d JNull) as [| | | | | | cfg] eqn:Ecfg;
    try discriminate. clear Eg.
  destruct (ensure_manager argv vmm (manager s) (cached_config_hash s) (JObj cfg) w)
    as [w1 [e | [m fp]]] eqn:Ee.
  { rewrite (process_request_failed _ _ _ _ _ _ _ El Ec Ecfg Ee) in H.
    injection H as <- <- <-.
    apply ensure_manager_history in Ee
      as [[-> (m & _ & _ & E)] | (new & Hc & Ho & Hn & _)];
      [discriminate |].
    exists new. eexists. cbn [printed calls stdout]. rewrite Ho.
    repeat split; auto. lia. }
  destruct (run_command_total m (item_or "command" d JNull) (JObj d) w1)
    as (w2 & result & new2 & Hr & Hc2 & Ho2 & Hn2).
  rewrite (process_request_resolved _ _ _ _ _ _ _ _ _ _ El Ec Ecfg Ee Hr) in H.
  injection H as <- <- <-.
  apply ensure_manager_history in Ee
    as [[-> (m0 & Em & Ecached & E)] | (new & Hc & Ho & Hn & Hres)].
  - injection E as E1 E2. subst m fp.
    exists new2. eexists. cbn [printed calls stdout]. rewrite Ho2.
    repeat split; auto; [lia |].
    right. exists (JObj cfg), m0. split; [reflexivity |]. now left.
  - destruct (Hres _ _ eq_refl) as (Efp & Hin & Hsrc). subst fp.
    exists (new ++ new2). eexists. cbn [printed calls stdout].
    rewrite Ho2, Ho, Hc2, Hc, app_assoc.
    repeat split; auto.
    + rewrite resolutions_app. lia.
    + right. exists (JObj cfg), m. split; [reflexivity |]. right. split.
      * apply in_or_app. now left.
      * destruct Hsrc as [[p Hp] | (kw & Hk & Hp)]; [left | right].
        -- exists p. apply in_or_app. now left.
        -- exists kw. split; [exact Hk | apply in_or_app; now left].
Qed.

(** A request that is not the shutdown command lets the loop go on. *)
Lemma process_request_continues s raw d w w' s' c :
  json_loads raw = inr (JObj d) ->
  eq_str (item_or "command" d JNull) "__shutdown__" = false ->
  process_request argv json_loads vmm s raw w = (w', inr (s', c)) ->
  c = Continue.
Proof.
  intros El Ec H.
  destruct (is_object (item_or "config" d JNull)) eqn:Eg.
  2:{ rewrite (process_request_no_config _ _ _ _ El Ec Eg) in H.
      now injection H. }
  destruct (item_or "config" d JNull) as [| | | | | | cfg] eqn:Ecfg;
    try discriminate. clear Eg.
  destruct (ensure_manager argv vmm (manager s) (cached_config_hash s) (JObj cfg) w)
    as [w1 [e | [m fp]]] eqn:Ee.
  { rewrite (process_request_failed _ _ _ _ _ _ _ El Ec Ecfg Ee) in H.
    now injection H. }
  destruct (run_command_total m (item_or "command" d JNull) (JObj d) w1)
    as (w2 & result & new2 & Hr & _).
  rewrite (process_request_resolved _ _ _ _ _ _ _ _ _ _ El Ec Ecfg Ee Hr) in H.
  now injection H.
Qed.

Lemma session_consistent_more (s : session handle) l l' :
  session_consistent s l -> session_consistent s (l ++ l').
Proof.
  unfold session_consistent. destruct (manager s); [| trivial].
  intros (config & Hc & Hr). exists config. split; [exact Hc |].
  now apply resolved_as_more.
Qed.

Lemma source_resolved (l new : list (event handle)) m config :
  In (Resolved config (inr m)) new -> source_of new m config ->
  resolved_as (l ++ new) m config.
Proof.
  intros Hin Hsrc. split; [apply in_or_app; now right |].
  destruct Hsrc as [[p Hp] | (kw & Hk & Hp)]; [left | right].
  - exists p. apply in_or_app. now right.
  - exists kw. split; [exact Hk | apply in_or_app; now right].
Qed.

(** ** The theorems *)

(** C1 (defect).  A request line whose text decodes to a JSON value that
    is not an object gets no response line: [payload.get] raises
    [AttributeError] outside every [try] of the loop body, nothing is
    printed, and the exception leaves the body of the loop. *)
Theorem non_object_request_gets_no_response s raw payload w :
  json_loads raw = inr payload -> (forall d, payload <> JObj d) ->
  snd (process_request argv json_loads vmm s raw w) = inl (no_get payload) /\
  stdout (fst (process_request argv json_loads vmm s raw w)) = stdout w.
Proof.
  intros Hl Hp. rewrite (process_request_not_object _ _ _ _ Hl Hp).
  split; reflexivity.
Qed.

(** C9 (defect).  The loop also ends at a request that is neither the
    shutdown command nor the end of the input: when the text of a request
    decodes to a value that is not an object, [main] is left by the
    exception, and the requests after it are not processed. *)
Theorem loop_ends_at_non_object_request s raw payload rest w :
  json_loads raw = inr payload -> (forall d, payload <> JObj d) ->
  main_loop argv json_loads vmm (raw :: rest) s w = (w, inl (no_get payload)).
Proof.
  intros Hl Hp. cbn [main_loop]. unfold bind.
  now rewrite (process_request_not_object _ _ _ _ Hl Hp).
Qed.

(** X4.  The shutdown command is acknowledged and ends the loop; it
    needs no configuration, and no later request is processed, whatever
    it is. *)
Theorem shutdown_ends_loop s raw d rest w :
  json_loads raw = inr (JObj d) ->
  eq_str (item_or "command" d JNull) "__shutdown__" = true ->
  main_loop argv json_loads vmm (raw :: rest) s w
  = (printed (JObj [("ok", JBool true); ("command", JStr "__shutdown__")]) w,
     inr s).
Proof.
  intros Hl Hc. cbn [main_loop]. unfold bind.
  now rewrite (process_request_shutdown _ _ _ _ Hl Hc).
Qed.

(** A request whose text is not JSON, or decodes to an object, is
    answered by exactly one line, and the loop body lets no exception
    out. *)
Lemma object_request_gets_one_response s raw w :
  (forall payload, json_loads raw = inr payload -> is_object payload = true) ->
  exists w' s' c line,
    process_request argv json_loads vmm s raw w = (w', inr (s', c)) /\
    stdout w' = stdout w ++ [line].
Proof.
  intros Hobj.
  destruct (json_loads raw) as [msg | payload] eqn:El.
  { rewrite (process_request_invalid _ _ _ _ El). do 4 eexists. split; reflexivity. }
  specialize (Hobj _ eq_refl).
  destruct payload as [| | | | | | d]; try discriminate. clear Hobj.
  destruct (eq_str (item_or "command" d JNull) "__shutdown__") eqn:Ec.
  { rewrite (process_request_shutdown _ _ _ _ El Ec). do 4 eexists. split; reflexivity. }
  destruct (is_object (item_or "config" d JNull)) eqn:Eg.
  2:{ rewrite (process_request_no_config _ _ _ _ El Ec Eg).
      do 4 eexists. split; reflexivity. }
  destruct (item_or "config" d JNull) as [| | | | | | cfg] eqn:Ecfg;
    try discriminate. clear Eg.
  destruct (ensure_manager argv vmm (manager s) (cached_config_hash s) (JObj cfg) w)
    as [w1 [e | [m fp]]] eqn:Ee.
  { rewrite (process_request_failed _ _ _ _ _ _ _ El Ec Ecfg Ee).
    do 4 eexists. split; [reflexivity |]. cbn [printed stdout].
    apply ensure_manager_history in Ee
      as [[-> _] | (new & _ & -> & _)]; reflexivity. }
  destruct (run_command_total m (item_or "command" d JNull) (JObj d) w1)
    as (w2 & result & new2 & Hr & Hc2 & Ho2 & Hn2).
  rewrite (process_request_resolved _ _ _ _ _ _ _ _ _ _ El Ec Ecfg Ee Hr).
  do 4 eexists. split; [reflexivity |]. cbn [printed stdout]. rewrite Ho2.
  apply ensure_manager_history in Ee
    as [[-> _] | (new & _ & -> & _)]; reflexivity.
Qed.

(** C3.  When the load-or-construct step raises during a request, the
    response is the initialization error with the text of the exception,
    the session is what it was, the loop goes on with that session, and
    in that session the configuration cached before is still resolved to
    the cached manager without any call or output. *)
Theorem failed_resolution_keeps_session s raw d c w w1 e :
  json_loads raw = inr (JObj d) ->
  eq_str (item_or "command" d JNull) "__shutdown__" = false ->
  item_or "config" d JNull = JObj c ->
  ensure_manager argv vmm (manager s) (cached_config_hash s) (JObj c) w = (w1, inl e) ->
  process_request argv json_loads vmm s raw w
  = (printed (error_response ("Failed to initialize manager: " ++ exn_str e)) w1,
     inr (s, Continue)) /\
  (forall rest,
      main_loop argv json_loads vmm (raw :: rest) s w
      = main_loop argv json_loads vmm rest s
          (printed (error_response ("Failed to initialize manager: " ++ exn_str e)) w1)) /\
  (forall m previous w2,
      manager s = Some m ->
      cached_config_hash s = Some (fingerprint previous) ->
      ensure_manager argv vmm (manager s) (cached_config_hash s) previous w2
      = (w2, inr (m, fingerprint previous))).
Proof.
  intros Hl Hc Hcfg He.
  pose proof (process_request_failed _ _ _ _ _ _ _ Hl Hc Hcfg He) as Hp.
  split; [exact Hp |]. split.
  - intros rest. cbn [main_loop]. unfold bind. now rewrite Hp.
  - intros m previous w2 -> ->. apply ensure_manager_hit.
Qed.

(** C10 (amended).  A request with a configuration mapping whose command
    is neither [register] nor [__shutdown__], and whose manager
    resolution succeeds, is answered by the unsupported-command error
    with [str(command)]; the session then holds what the resolution
    returned, under the fingerprint of the request's configuration; a
    request with no command at all reads as [None]. *)
Theorem unsupported_command_after_resolution s raw d c w w1 m fp :
  json_loads raw = inr (JObj d) ->
  eq_str (item_or "command" d JNull) "__shutdown__" = false ->
  eq_str (item_or "command" d JNull) "register" = false ->
  item_or "config" d JNull = JObj c ->
  ensure_manager argv vmm (manager s) (cached_config_hash s) (JObj c) w = (w1, inr (m, fp)) ->
  process_request argv json_loads vmm s raw w
  = (printed (error_response
                ("Unsupported command: " ++ py_str (item_or "command" d JNull))) w1,
     inr ({| manager := Some m; cached_config_hash := Some fp |}, Continue)) /\
  fp = fingerprint (JObj c) /\
  (lookup "command" d = None ->
   py_str (item_or "command" d JNull) = "None").
Proof.
  intros Hl Hs Hr Hcfg He. split; [| split].
  - eapply process_request_resolved; try eassumption.
    now apply run_command_unsupported.
  - apply ensure_manager_history in He
      as [[_ (m0 & _ & _ & E)] | (new & _ & _ & _ & Hres)].
    + now injection E.
    + now destruct (Hres _ _ eq_refl).
  - intros Hn. unfold item_or. now rewrite Hn.
Qed.

(** C5 (amended).  The session is consistent at the start of [main], and
    every iteration of the loop preserves, hence so does every run of the
    loop: when the session holds a manager, the cached fingerprint is that
    of the configuration whose resolution returned this very manager,
    which [load_manager] had restored from the state file or constructed
    from that configuration. *)
Theorem session_consistency_preserved :
  session_consistent (handle := handle) initial_session [] /\
  (forall s raw w w' s' c,
      session_consistent s (calls w) ->
      process_request argv json_loads vmm s raw w = (w', inr (s', c)) ->
      session_consistent s' (calls w')) /\
  (forall requests s w w' s',
      session_consistent s (calls w) ->
      main_loop argv json_loads vmm requests s w = (w', inr s') ->
      session_consistent s' (calls w')).
Proof.
  split; [reflexivity |].
  assert (Hstep : forall s raw w w' s' c,
             session_consistent s (calls w) ->
             process_request argv json_loads vmm s raw w = (w', inr (s', c)) ->
             session_consistent s' (calls w')).
  { intros s raw w w' s' c Hinv H.
    apply process_request_step in H
      as (new & line & -> & _ & _ & [-> | (config & m & -> & Hcase)]).
    - now apply session_consistent_more.
    - unfold session_consistent. cbn [manager cached_config_hash].
      destruct Hcase as [[Em Ec] | [Hin Hsrc]].
      + unfold session_consistent in Hinv. rewrite Em in Hinv.
        destruct Hinv as (config0 & Ec0 & Hr).
        exists config0. split; [congruence | now apply resolved_as_more].
      + exists config. split; [reflexivity | now apply source_resolved]. }
  split; [exact Hstep |].
  induction requests as [| raw rest IH]; intros s w w' s' Hinv H.
  - cbn in H. injection H as <- <-. exact Hinv.
  - cbn [main_loop] in H. unfold bind in H.
    destruct (process_request argv json_loads vmm s raw w) as [w1 [e | [s1 c]]] eqn:E;
      [discriminate |].
    pose proof (Hstep _ _ _ _ _ _ Hinv E) as Hinv1.
    destruct c.
    + now apply (IH _ _ _ _ Hinv1 H).
    + cbn in H. injection H as <- <-. exact Hinv1.
Qed.


(** *** Two requests with the same configuration *)

Lemma process_request_resolutions s raw w :
  resolutions (calls (fst (process_request argv json_loads vmm s raw w)))
  <= resolutions (calls w) + 1.
Proof.
  destruct (process_request argv json_loads vmm s raw w) as [w' [e | [s' c]]] eqn:E; cbn [fst].
  - (* an exception left the body: the payload is not an object *)
    destruct (json_loads raw) as [msg | payload] eqn:El.
    { rewrite (process_request_invalid _ _ _ _ El) in E. discriminate. }
    destruct (is_object payload) eqn:Eo.
    + destruct (object_request_gets_one_response s raw w) as (? & ? & ? & ? & E' & _).
      { intros p Hp. congruence. }
      congruence.
    + rewrite (process_request_not_object _ _ _ _ El) in E.
      * injection E as <- _. lia.
      * intros d ->. discriminate.
  - apply process_request_step in E as (new & _ & -> & _ & Hn & _).
    rewrite resolutions_app. lia.
Qed.

(** After a request whose resolution succeeded, a request with the same
    configuration runs no resolution. *)
Lemma second_request_hits m c raw d w :
  json_loads raw = inr (JObj d) ->
  item_or "config" d JNull = c ->
  resolutions
    (calls (fst (process_request argv json_loads vmm
                   {| manager := Some m;
                      cached_config_hash := Some (fingerprint c) |} raw w)))
  = resolutions (calls w).
Proof.
  intros Hl Hc.
  destruct (eq_str (item_or "command" d JNull) "__shutdown__") eqn:Ec.
  { now rewrite (process_request_shutdown _ _ _ _ Hl Ec). }
  destruct (is_object (item_or "config" d JNull)) eqn:Eg.
  2:{ now rewrite (process_request_no_config _ _ _ _ Hl Ec Eg). }
  destruct (item_or "config" d JNull) as [| | | | | | cfg] eqn:Ecfg;
    try discriminate. subst c.
  destruct (run_command_total m (item_or "command" d JNull) (JObj d) w)
    as (w2 & result & new2 & Hr & Hc2 & Ho2 & Hn2).
  rewrite (process_request_resolved
             {| manager := Some m;
                cached_config_hash := Some (fingerprint (JObj cfg)) |}
             _ _ _ _ _ _ _ _ _ Hl Ec Ecfg
             (ensure_manager_hit m (JObj cfg) w) Hr).
  cbn [fst printed calls]. rewrite Hc2, resolutions_app. lia.
Qed.

(** C2 (amended).  When the session holds a manager and the cached
    fingerprint is that of the incoming configuration, [ensure_manager]
    returns this very manager with that fingerprint and leaves the world
    as it was: no call, no output.  And across two consecutive requests
    with the same configuration, the first of which does not fail to
    resolve its manager, the load-or-construct path runs at most once. *)
Theorem cache_hit_reuses_manager :
  (forall m cached config w,
      cached = fingerprint config ->
      ensure_manager argv vmm (Some m) (Some cached) config w = (w, inr (m, cached))) /\
  (forall s r1 r2 d1 d2 w,
      json_loads r1 = inr (JObj d1) -> json_loads r2 = inr (JObj d2) ->
      item_or "config" d1 JNull = item_or "config" d2 JNull ->
      (forall w1 e,
          ensure_manager argv vmm (manager s) (cached_config_hash s)
            (item_or "config" d1 JNull) w <> (w1, inl e)) ->
      resolutions (calls (fst (main_loop argv json_loads vmm [r1; r2] s w)))
      <= resolutions (calls w) + 1).
Proof.
  split.
  { intros m cached config w ->. apply ensure_manager_hit. }
  intros s r1 r2 d1 d2 w H1 H2 Hsame Hok.
  cbn [main_loop]. unfold bind.
  destruct (eq_str (item_or "command" d1 JNull) "__shutdown__") eqn:Ec.
  { rewrite (process_request_shutdown _ _ _ _ H1 Ec).
    cbn [fst ret printed calls]. lia. }
  destruct (is_object (item_or "config" d1 JNull)) eqn:Eg.
  2:{ rewrite (process_request_no_config _ _ _ _ H1 Ec Eg).
      pose proof (process_request_resolutions s r2
                    (printed (error_response "Missing manager configuration") w)) as Hr.
      destruct (process_request argv json_loads vmm s r2 _) as [w2 [e | [s2 [|]]]]; exact Hr. }
  destruct (item_or "config" d1 JNull) as [| | | | | | cfg] eqn:Ecfg;
    try discriminate. clear Eg.
  destruct (ensure_manager argv vmm (manager s) (cached_config_hash s) (JObj cfg) w)
    as [w1 [e | [m fp]]] eqn:Ee.
  { now elim (Hok w1 e). }
  destruct (run_command_total m (item_or "command" d1 JNull) (JObj d1) w1)
    as (w2 & result & new2 & Hr & Hc2 & Ho2 & Hn2).
  rewrite (process_request_resolved _ _ _ _ _ _ _ _ _ _ H1 Ec Ecfg Ee Hr).
  assert (Hfp : fp = fingerprint (JObj cfg) /\
                resolutions (calls w1) <= resolutions (calls w) + 1).
  { apply ensure_manager_history in Ee
      as [[-> (m0 & _ & _ & E)] | (new & -> & _ & Hn & Hres)].
    - injection E as _ <-. split; [reflexivity | lia].
    - destruct (Hres _ _ eq_refl) as (-> & _). split; [reflexivity |].
      rewrite resolutions_app. lia. }
  destruct Hfp as [-> Hle].
  pose proof (second_request_hits m (JObj cfg) r2 d2 (printed result w2) H2
                (eq_sym Hsame)) as Hhit.
  destruct (process_request argv json_loads vmm _ r2 (printed result w2)) as [w3 [e | [s3 [|]]]];
    cbn [fst main_loop ret] in *; rewrite Hhit; cbn [printed calls];
    rewrite Hc2, resolutions_app; lia.
Qed.

(** *** [load_manager] *)

Lemma keyword_args_full config names : forall kwargs,
  keyword_args config names = inr kwargs ->
  keys kwargs = names /\
  forall name v, In (name, v) kwargs -> getitem config name = inr v.
Proof.
  induction names as [| name names IH]; intros kwargs H; cbn in H.
  - injection H as <-. split; [reflexivity | intros ? ? []].
  - destruct (getitem config name) as [e | v] eqn:Eg; [discriminate |].
    destruct (keyword_args config names) as [e | kw]; [discriminate |].
    injection H as <-. destruct (IH _ eq_refl) as [Hk Hv].
    split; [change (keys ((name, v) :: kw)) with (name :: keys kw);
            now rewrite Hk |].
    intros n x [E | Hin]; [injection E as <- <-; exact Eg | now apply Hv].
Qed.

(** C6.  [load_manager] asks first for the persisted state.  When the
    state file is there and [load_json] returns a manager, that manager
    is returned: the run is the two calls that found it, whatever the
    configuration is.  The constructor is called only when there is no
    usable persisted state, with the fourteen parameters of the
    configuration; and when there is none and the configuration has the
    fourteen parameters, the constructor is called with them and its
    outcome is the outcome of [load_manager]. *)
Theorem load_manager_prefers_persisted_state config w :
  (forall e1 e2 m,
      path_exists vmm (STATE_PATH argv) (outside w) = (e1, inr true) ->
      load_json vmm (STATE_PATH argv) e1 = (e2, inr (Some m)) ->
      load_manager argv vmm config w
      = ({| outside := e2;
            calls := calls w ++ [CallExists (STATE_PATH argv) (inr true);
                                 CallLoadJson (STATE_PATH argv) (inr (Some m));
                                 Resolved config (inr m)];
            stdout := stdout w |}, inr m)) /\
  (forall w' r,
      load_manager argv vmm config w = (w', r) ->
      exists new,
        calls w' = calls w ++ new /\
        forall kwargs res, In (CallConstruct kwargs res) new ->
          no_usable_state vmm (STATE_PATH argv) (outside w) /\
          full_parameter_set config kwargs /\ res = r) /\
  (forall kwargs,
      no_usable_state vmm (STATE_PATH argv) (outside w) ->
      keyword_args config manager_parameters = inr kwargs ->
      exists w' r new,
        load_manager argv vmm config w = (w', r) /\
        calls w' = calls w ++ new /\
        In (CallConstruct kwargs r) new).
Proof.
  split; [| split].
  - intros e1 e2 m He Hl.
    unfold load_manager. unfold_monad.
    rewrite He. cbn. rewrite Hl. cbn.
    now rewrite <- !app_assoc.
  - intros w' r H.
    unfold load_manager, construct_from in H. unfold_monad.
    split_outcomes.
    all: normalize_history; eexists; split; [history |].
    all: cbn [In]; intros kwargs res Hin.
    all: repeat (destruct Hin as [E | Hin]; [try discriminate E |]);
      try contradiction.
    all: injection E as <- <-; subst.
    all: split; [unfold no_usable_state; eauto 6 |].
    all: split; [now apply keyword_args_full | reflexivity].
  - intros kwargs Hno Hk.
    unfold load_manager, construct_from. unfold_monad.
    rewrite Hk.
    destruct Hno as [(e1 & He) | (e1 & e2 & He & Hl)].
    + rewrite He. cbn.
      destruct (construct vmm kwargs e1) as [e3 r] eqn:Ec.
      do 3 eexists. split; [destruct r; reflexivity |].
      destruct r; normalize_history; (split; [history | cbn [In]; auto]).
    + rewrite He. cbn. rewrite Hl. cbn.
      destruct (construct vmm kwargs e2) as [e3 r] eqn:Ec.
      do 3 eexists. split; [destruct r; reflexivity |].
      destruct r; normalize_history; (split; [history | cbn [In]; auto]).
Qed.

(** *** [register_and_reinforce] *)

(** C7.  For a register request with a non-empty [reinforce] object, a
    call to [reinforce] is made at most once, exactly once when the
    register step succeeded, and what it forwards is a dict with no key
    but [ids] and [distances], holding each of them exactly when the
    caller gave it under [reinforce], with the caller's value, next to
    the payload's [heat_gain] (0.5 by default) and [ttl_boost] (60 by
    default).  When [reinforce] is absent or empty no call to
    [reinforce] is made. *)
Theorem reinforce_forwards_supplied_keys m fields :
  (forall d w w' r,
      lookup "reinforce" fields = Some (JObj d) -> d <> [] ->
      register_and_reinforce argv vmm m (JObj fields) w = (w', r) ->
      exists new,
        calls w' = calls w ++ new /\
        reinforcements new <= 1 /\
        (forall ids texts e',
            lookup "ids" fields = Some ids ->
            lookup "texts" fields = Some texts ->
            register_chunks vmm m ids texts (outside w) = (e', inr tt) ->
            reinforcements new = 1) /\
        forall h results hg tb res,
          In (CallReinforce h results hg tb res) new ->
          h = m /\
          hg = item_or "heat_gain" fields (JFloat "0.5") /\
          tb = item_or "ttl_boost" fields (JInt 60) /\
          exists fwd,
            results = JObj fwd /\
            (forall k, has_key k fwd = true -> k = "ids" \/ k = "distances") /\
            lookup "ids" fwd = lookup "ids" d /\
            lookup "distances" fwd = lookup "distances" d) /\
  (forall w w' r,
      lookup "reinforce" fields = None \/
      lookup "reinforce" fields = Some (JObj []) ->
      register_and_reinforce argv vmm m (JObj fields) w = (w', r) ->
      exists new, calls w' = calls w ++ new /\ reinforcements new = 0).
Proof.
  split.
  - intros d w w' r Hre Hne H.
    assert (Er : item_or "reinforce" fields (JObj []) = JObj d)
      by (unfold item_or; now rewrite Hre).
    destruct d as [| kv d]; [now elim Hne |].
    unfold register_and_reinforce, persist_manager in H.
    unfold_monad. cbn [get getitem] in H. rewrite Er in H.
    cbn [truthy contains getitem] in H. unfold has_key in H.
    split_outcomes.
    all: normalize_history; eexists; split; [history |].
    all: split; [cbn; lia |].
    all: split; [intros ids texts e' Hi Ht Hreg;
                 first [reflexivity | exfalso; congruence] |].
    all: cbn [In]; intros h results hg tb res Hin; which_event Hin.
    all: match goal with E : CallReinforce _ _ _ _ _ = _ |- _ =>
           injection E as <- <- <- <- <- end.
    all: split; [reflexivity |]; split; [reflexivity |];
      split; [reflexivity |]; eexists; split; [reflexivity |].
    all: split;
      [ intros k; unfold has_key; cbn [app lookup];
        repeat match goal with
               | |- context [String.eqb ?a ?x] =>
                   destruct (String.eqb_spec a x); [subst; auto |]
               end;
        intros Hk; discriminate Hk
      | cbn [app lookup String.eqb Ascii.eqb Bool.eqb]; split; congruence ].
  - intros w w' r Hre H.
    assert (Er : item_or "reinforce" fields (JObj []) = JObj [])
      by (unfold item_or; destruct Hre as [-> | ->]; reflexivity).
    unfold register_and_reinforce, persist_manager in H.
    unfold_monad. cbn [get getitem] in H. rewrite Er in H. cbn [truthy] in H.
    split_outcomes.
    all: normalize_history; eexists; split; [history | reflexivity].
Qed.

(** Where a given call sits in a history written out in full. *)
Ltac locate_call E before :=
  repeat (destruct before as [| ?ev before]; cbn [app] in E;
          [ first [discriminate E | injection E; intros; subst]
          | first [discriminate E | injection E as ? E; subst] ]);
  try discriminate E.


(** ** More of what the loop does *)

(** The only exception that leaves the body of the loop is the one of a
    payload that is not an object, and it leaves the world as it was. *)
Lemma process_request_raises s raw w w' e :
  process_request argv json_loads vmm s raw w = (w', inl e) ->
  w' = w /\
  exists payload,
    json_loads raw = inr payload /\ is_object payload = false /\
    e = no_get payload.
Proof.
  intros E.
  destruct (json_loads raw) as [msg | payload] eqn:El.
  { rewrite (process_request_invalid _ _ _ _ El) in E. discriminate. }
  destruct (is_object payload) eqn:Eo.
  - destruct (object_request_gets_one_response s raw w) as (? & ? & ? & ? & E' & _).
    { intros p Hp. congruence. }
    congruence.
  - rewrite (process_request_not_object _ _ _ _ El) in E.
    + injection E as <- <-. split; [reflexivity |]. now exists payload.
    + intros d ->. discriminate.
Qed.


(** X16.  Whatever the loop does, it only adds to the output and to the
    history, never more than one line for a request, and it runs the
    load-or-construct path at most once for each line it prints. *)
Theorem main_loop_only_appends requests : forall s w w' r,
  main_loop argv json_loads vmm requests s w = (w', r) ->
  exists lines new,
    stdout w' = stdout w ++ lines /\ calls w' = calls w ++ new /\
    length lines <= length requests /\ resolutions new <= length lines.
Proof.
  induction requests as [| raw rest IH]; intros s w w' r H.
  - injection H as <- <-. exists [], []. rewrite !app_nil_r. repeat split; auto.
  - cbn [main_loop] in H. unfold bind in H.
    destruct (process_request argv json_loads vmm s raw w) as [w1 [x | [s1 c]]] eqn:E.
    + injection H as <- <-. apply process_request_raises in E as (-> & _).
      exists [], []. rewrite !app_nil_r. repeat split; cbn; lia.
    + apply process_request_step in E as (new & line & Hc & Ho & Hn & _).
      destruct c.
      * destruct (IH _ _ _ _ H) as (lines & new' & Ho' & Hc' & Hlen & Hres).
        exists (line :: lines), (new ++ new').
        rewrite Ho', Ho, Hc', Hc, <- !app_assoc, resolutions_app.
        repeat split; cbn; lia.
      * injection H as <- <-. exists [line], new.
        repeat split; try assumption; cbn; lia.
Qed.

(** X3.  Requests that are not JSON or carry no configuration mapping
    are each answered by one line and touch nothing else: the session,
    the manager and the disk are as they were, and no call was made. *)
Theorem rejected_requests_touch_nothing requests : forall s w,
  (forall raw, In raw requests -> rejected json_loads raw = true) ->
  exists lines,
    main_loop argv json_loads vmm requests s w
    = ({| outside := outside w; calls := calls w;
          stdout := stdout w ++ lines |}, inr s) /\
    length lines = length requests.
Proof.
  induction requests as [| raw rest IH]; intros s w Hrej.
  - exists []. rewrite app_nil_r. destruct w. split; reflexivity.
  - pose proof (Hrej raw (or_introl eq_refl)) as Hr. unfold rejected in Hr.
    assert (Hstep : exists v, process_request argv json_loads vmm s raw w = (printed v w, inr (s, Continue))).
    { destruct (json_loads raw) as [msg | payload] eqn:El.
      - eexists. exact (process_request_invalid _ _ _ _ El).
      - destruct payload as [| | | | | | d]; try discriminate.
        apply andb_true_iff in Hr as [Hs Hc].
        apply negb_true_iff in Hs, Hc.
        eexists. exact (process_request_no_config _ _ _ _ El Hs Hc). }
    destruct Hstep as [v Hstep].
    destruct (IH s (printed v w)) as (lines & E & Hlen).
    { intros r Hin. apply Hrej. now right. }
    exists (dumps v :: lines). split; [| cbn; now rewrite Hlen].
    cbn [main_loop]. unfold bind. rewrite Hstep, E.
    cbn [printed outside calls stdout]. now rewrite <- app_assoc.
Qed.

(** X2.  When standard input is empty or holds only lines of white
    space, [main] prints nothing, makes no call and ends with no manager
    in the session. *)
Theorem main_on_blank_input stdin w :
  (forall raw, In raw stdin -> all_chars is_space raw = true) ->
  main argv json_loads vmm stdin w = (w, inr initial_session).
Proof.
  intros H. unfold main. now rewrite (iter_requests_blank _ H).
Qed.

(** X17.  The loop over a first batch of requests and then over a second
    one, from the session and the world the first left, is the loop over
    both, when the first batch has no shutdown command and lets no
    exception out. *)
Theorem main_loop_app a : forall b s w w1 s1,
  (forall raw, In raw a -> is_shutdown json_loads raw = false) ->
  main_loop argv json_loads vmm a s w = (w1, inr s1) ->
  main_loop argv json_loads vmm (a ++ b) s w = main_loop argv json_loads vmm b s1 w1.
Proof.
  induction a as [| raw rest IH]; intros b s w w1 s1 Hno H.
  - injection H as <- <-. reflexivity.
  - cbn [main_loop app] in *. unfold bind in *.
    destruct (process_request argv json_loads vmm s raw w) as [w' [x | [s' c]]] eqn:E;
      [discriminate |].
    assert (Hc : c = Continue).
    { pose proof (Hno raw (or_introl eq_refl)) as Hs. unfold is_shutdown in Hs.
      destruct (json_loads raw) as [msg | payload] eqn:El.
      - rewrite (process_request_invalid _ _ _ _ El) in E. now injection E.
      - destruct (is_object payload) eqn:Eo.
        + destruct payload as [| | | | | | d]; try discriminate.
          exact (process_request_continues _ _ _ _ _ _ _ El Hs E).
        + rewrite (process_request_not_object _ _ _ _ El) in E;
            [discriminate | intros d ->; discriminate]. }
    subst c. apply IH; [| exact H].
    intros r Hin. apply Hno. now right.
Qed.

(** ** More of the cache *)

(** X8.  A configuration with the same pairs as the cached one, in
    whatever key order, is a cache hit: the cached manager is returned
    and the world is left as it was. *)
Theorem reordered_config_is_cache_hit m c c' w :
  wf c -> wf c' -> same_pairs c c' ->
  ensure_manager argv vmm (Some m) (Some (fingerprint c)) c' w
  = (w, inr (m, fingerprint c')).
Proof.
  intros Wc Wc' Hsame.
  apply (fingerprint_iff c c' Wc Wc') in Hsame. rewrite Hsame.
  apply ensure_manager_hit.
Qed.

(** X9.  A configuration that differs from the cached one in some pair,
    or any configuration when no manager is cached, runs the
    load-or-construct path exactly once; what comes back is what
    [load_manager] returned, with the fingerprint of the new
    configuration. *)
Theorem changed_config_resolves_again mo c c' w w' r :
  wf c -> wf c' ->
  mo = None \/ ~ same_pairs c c' ->
  ensure_manager argv vmm mo (Some (fingerprint c)) c' w = (w', r) ->
  exists r',
    load_manager argv vmm c' w = (w', r') /\
    r = match r' with
        | inl e => inl e
        | inr m' => inr (m', fingerprint c')
        end /\
    resolutions (calls w') = resolutions (calls w) + 1.
Proof.
  intros Wc Wc' Hmiss H.
  assert (Hrun : bind (load_manager argv vmm c') (fun m' => ret (m', fingerprint c')) w
                 = (w', r)).
  { unfold ensure_manager in H. destruct mo as [m |]; [| exact H].
    destruct Hmiss as [Hn | Hd]; [discriminate |].
    cbn [hash_eqb] in H.
    destruct (String.eqb_spec (fingerprint c) (fingerprint c')) as [E | _];
      [| exact H].
    elim Hd. now apply (fingerprint_iff c c' Wc Wc'). }
  unfold bind, ret in Hrun.
  destruct (load_manager argv vmm c' w) as [w1 r1] eqn:E.
  pose proof (load_manager_history _ _ _ _ E) as (new & Hc & _ & Hn & _).
  exists r1. destruct r1 as [e | m1]; injection Hrun as <- <-;
    (split; [reflexivity |]); (split; [reflexivity |]);
    rewrite Hc, resolutions_app; lia.
Qed.

(** ** More of [load_manager] *)

Lemma keyword_args_missing d before : forall missing after,
  (forall name, In name before -> lookup name d <> None) ->
  lookup missing d = None ->
  keyword_args (JObj d) (before ++ missing :: after) = inl (KeyError missing).
Proof.
  induction before as [| name before IH]; intros missing after Hb Hm; cbn.
  - now rewrite Hm.
  - destruct (lookup name d) eqn:E; [| now elim (Hb name (or_introl eq_refl))].
    rewrite IH; [reflexivity | | exact Hm].
    intros n Hin. apply Hb. now right.
Qed.

(** X10.  Without usable persisted state, a configuration that lacks a
    parameter makes [load_manager] raise the [KeyError] of the first
    parameter that is missing, in the order of the constructor's
    arguments, and the constructor is not called. *)
Theorem load_manager_missing_parameter d before missing after w :
  manager_parameters = before ++ missing :: after ->
  (forall name, In name before -> lookup name d <> None) ->
  lookup missing d = None ->
  no_usable_state vmm (STATE_PATH argv) (outside w) ->
  exists w' new,
    load_manager argv vmm (JObj d) w = (w', inl (KeyError missing)) /\
    calls w' = calls w ++ new /\
    forall kwargs r, ~ In (CallConstruct kwargs r) new.
Proof.
  intros Hp Hb Hm Hno.
  pose proof (keyword_args_missing d before missing after Hb Hm) as Hk.
  rewrite <- Hp in Hk.
  unfold load_manager, construct_from. unfold_monad. rewrite Hk.
  destruct Hno as [(e1 & He) | (e1 & e2 & He & Hl)].
  - rewrite He. cbn. do 2 eexists. split; [reflexivity |].
    normalize_history. split; [history |].
    intros kwargs r Hin. cbn [In] in Hin. which_event Hin.
  - rewrite He. cbn. rewrite Hl. cbn. do 2 eexists. split; [reflexivity |].
    normalize_history. split; [history |].
    intros kwargs r Hin. cbn [In] in Hin. which_event Hin.
Qed.

(** ** More of the register command *)

(** The shape of an iteration that lets no exception out: it printed one
    line and did nothing else, or the resolution failed, or the
    resolution gave a manager and the command ran. *)
Lemma process_request_cases s raw w w' s' c :
  process_request argv json_loads vmm s raw w = (w', inr (s', c)) ->
  (exists v, w' = printed v w /\ s' = s) \/
  (exists d cfg w1 e,
      json_loads raw = inr (JObj d) /\
      ensure_manager argv vmm (manager s) (cached_config_hash s) (JObj cfg) w = (w1, inl e) /\
      w' = printed (error_response ("Failed to initialize manager: " ++ exn_str e)) w1 /\
      s' = s) \/
  (exists d cfg w1 m fp w2 result,
      json_loads raw = inr (JObj d) /\
      ensure_manager argv vmm (manager s) (cached_config_hash s) (JObj cfg) w
      = (w1, inr (m, fp)) /\
      run_command argv vmm m (item_or "command" d JNull) (JObj d) w1
      = (w2, inr result) /\
      w' = printed result w2 /\
      s' = {| manager := Some m; cached_config_hash := Some fp |}).
Proof.
  intros H.
  destruct (json_loads raw) as [msg | payload] eqn:El.
  { rewrite (process_request_invalid _ _ _ _ El) in H. injection H as <- <- <-.
    left. eauto. }
  destruct (is_object payload) eqn:Eo.
  2:{ rewrite (process_request_not_object _ _ _ _ El) in H; [discriminate |].
      intros d ->. discriminate. }
  destruct payload as [| | | | | | d]; try discriminate. clear Eo.
  destruct (eq_str (item_or "command" d JNull) "__shutdown__") eqn:Ec.
  { rewrite (process_request_shutdown _ _ _ _ El Ec) in H. injection H as <- <- <-.
    left. eauto. }
  destruct (is_object (item_or "config" d JNull)) eqn:Eg.
  2:{ rewrite (process_request_no_config _ _ _ _ El Ec Eg) in H.
      injection H as <- <- <-. left. eauto. }
  destruct (item_or "config" d JNull) as [| | | | | | cfg] eqn:Ecfg;
    try discriminate. clear Eg.
  destruct (ensure_manager argv vmm (manager s) (cached_config_hash s) (JObj cfg) w)
    as [w1 [e | [m fp]]] eqn:Ee.
  { rewrite (process_request_failed _ _ _ _ _ _ _ El Ec Ecfg Ee) in H.
    injection H as <- <- <-. right. left. exists d, cfg, w1, e. auto. }
  destruct (run_command_total m (item_or "command" d JNull) (JObj d) w1)
    as (w2 & result & new2 & Hr & _).
  rewrite (process_request_resolved _ _ _ _ _ _ _ _ _ _ El Ec Ecfg Ee Hr) in H.
  injection H as <- <- <-. right. right.
  exists d, cfg, w1, m, fp, w2, result. auto.
Qed.

Lemma register_is_not_shutdown command :
  eq_str command "register" = true -> eq_str command "__shutdown__" = false.
Proof.
  destruct command; try discriminate. cbn [eq_str]. intros H.
  apply String.eqb_eq in H. now subst.
Qed.

(** An exception of the register command is answered in one line, and
    the manager of the request stays in the session. *)
Lemma command_failure_is_answered s raw d c w w1 m fp w2 e :
  json_loads raw = inr (JObj d) ->
  eq_str (item_or "command" d JNull) "register" = true ->
  item_or "config" d JNull = JObj c ->
  ensure_manager argv vmm (manager s) (cached_config_hash s) (JObj c) w = (w1, inr (m, fp)) ->
  register_and_reinforce argv vmm m (JObj d) w1 = (w2, inl e) ->
  process_request argv json_loads vmm s raw w
  = (printed (error_response ("Void manager error: " ++ exn_str e)) w2,
     inr ({| manager := Some m; cached_config_hash := Some fp |}, Continue)).
Proof.
  intros El Ec Ecfg Ee Er.
  apply (process_request_resolved _ _ _ _ _ _ _ _ _ _ El
           (register_is_not_shutdown _ Ec) Ecfg Ee).
  unfold run_command, try_except. now rewrite Ec, Er.
Qed.

(** X12.  A register request that resolves a manager but has no [ids],
    or has [ids] and no [texts], is answered by the [KeyError] of the
    first of the two that is missing; no call reaches the manager and
    nothing is persisted, and the manager is cached all the same. *)
Theorem register_without_ids_or_texts s raw d c w w1 m fp :
  json_loads raw = inr (JObj d) ->
  eq_str (item_or "command" d JNull) "register" = true ->
  item_or "config" d JNull = JObj c ->
  ensure_manager argv vmm (manager s) (cached_config_hash s) (JObj c) w = (w1, inr (m, fp)) ->
  lookup "ids" d = None \/ lookup "texts" d = None ->
  exists key,
    lookup key d = None /\
    (key = "ids" \/ key = "texts" /\ lookup "ids" d <> None) /\
    process_request argv json_loads vmm s raw w
    = (printed (error_response ("Void manager error: '" ++ key ++ "'")) w1,
       inr ({| manager := Some m; cached_config_hash := Some fp |}, Continue)).
Proof.
  intros El Ec Ecfg Ee Hmiss.
  destruct (lookup "ids" d) as [ids |] eqn:Ei.
  - destruct Hmiss as [Hm | Hm]; [discriminate |].
    exists "texts". split; [exact Hm |]. split; [right; split; congruence |].
    apply (command_failure_is_answered _ _ _ _ _ _ _ _ _ (KeyError "texts")
             El Ec Ecfg Ee).
    unfold register_and_reinforce. unfold_monad.
    cbn [getitem]. now rewrite Ei, Hm.
  - exists "ids". split; [exact Ei |]. split; [now left |].
    apply (command_failure_is_answered _ _ _ _ _ _ _ _ _ (KeyError "ids")
             El Ec Ecfg Ee).
    unfold register_and_reinforce. unfold_monad.
    cbn [getitem]. now rewrite Ei.
Qed.

(** X14.  The manager is read, by [stats], [consume_events] and [top],
    only after its state was written: each of these calls is for the
    manager of the request and comes after the calls that made the
    directory and saved the state, which both returned.  When the run
    returns, the three reads are its last calls, in this order with the
    five best for [top], and the result holds what they returned under
    [stats], [events] and [top]. *)
Theorem reads_follow_save m payload w w' r :
  register_and_reinforce argv vmm m payload w = (w', r) ->
  exists new,
    calls w' = calls w ++ new /\
    (forall before ev after,
        new = before ++ ev :: after -> is_read ev = true ->
        event_manager ev = Some m /\
        In (CallMkdir (STATE_PATH argv) (inr tt)) before /\
        In (CallSaveJson m (STATE_PATH argv) (inr tt)) before) /\
    (forall result, r = inr result ->
        exists st evs tp before,
          result = JObj [("stats", st); ("events", evs); ("top", tp)] /\
          new = before ++ [CallStats m (inr st); CallConsumeEvents m (inr evs);
                           CallTop m 5 (inr tp)]).
Proof.
  intros H.
  unfold register_and_reinforce, persist_manager in H.
  unfold_monad. split_outcomes.
  all: normalize_history; eexists; split; [history |].
  all: split;
    [ intros bf ev af E Hread; locate_call E bf;
      try discriminate Hread;
      repeat match goal with u : unit |- _ => destruct u end;
      (split; [reflexivity |]); cbn [In]; split; auto 8
    | intros result Hres; first [discriminate Hres | injection Hres as <-];
      do 3 eexists;
      first [ exists []; split; reflexivity
            | eexists [_]; split; reflexivity
            | eexists [_; _]; split; reflexivity
            | eexists [_; _; _]; split; reflexivity
            | eexists [_; _; _; _]; split; reflexivity
            | eexists [_; _; _; _; _]; split; reflexivity ] ].
Qed.

(** X15.  A [reinforce] that is falsy, whatever its type (absent,
    [null], [false], a zero, an empty string, list or dict), makes no
    call to [reinforce], and the run goes on to persist the manager when
    the register step returned. *)
Theorem falsy_reinforce_is_skipped m fields w w' r :
  truthy (item_or "reinforce" fields (JObj [])) = false ->
  register_and_reinforce argv vmm m (JObj fields) w = (w', r) ->
  exists new,
    calls w' = calls w ++ new /\ reinforcements new = 0 /\
    forall ids texts e1,
      lookup "ids" fields = Some ids -> lookup "texts" fields = Some texts ->
      register_chunks vmm m ids texts (outside w) = (e1, inr tt) ->
      exists res, In (CallMkdir (STATE_PATH argv) res) new.
Proof.
  intros Hf H.
  unfold register_and_reinforce, persist_manager in H.
  unfold_monad. cbn [get getitem] in H. rewrite Hf in H.
  split_outcomes.
  all: normalize_history; eexists; split; [history |].
  all: split; [reflexivity |].
  all: intros given_ids given_texts registered Hi Ht Hreg;
    first [ exfalso; congruence | eexists; cbn [In]; eauto 6 ].
Qed.

(** X18.  A [reinforce] that is truthy and neither a dict, a list nor a
    string ([true], a number that is not zero) makes the command raise a
    [TypeError] at the first [in] test, after the register step and
    before anything is persisted: the chunks are registered in the
    manager, and the state file is not written. *)
Theorem scalar_reinforce_raises_after_register m fields ids texts e1 w :
  lookup "ids" fields = Some ids -> lookup "texts" fields = Some texts ->
  register_chunks vmm m ids texts (outside w) = (e1, inr tt) ->
  truthy (item_or "reinforce" fields (JObj [])) = true ->
  not_iterable (item_or "reinforce" fields (JObj [])) = true ->
  exists msg,
    register_and_reinforce argv vmm m (JObj fields) w
    = ({| outside := e1;
          calls := calls w ++ [CallRegisterChunks m ids texts (inr tt)];
          stdout := stdout w |}, inl (TypeError msg)).
Proof.
  intros Hi Ht Hreg Htr Hni.
  unfold register_and_reinforce, persist_manager.
  unfold_monad. cbn [get getitem]. rewrite Hi, Ht. cbn [fst snd].
  rewrite Hreg, Htr.
  destruct (item_or "reinforce" fields (JObj [])); try discriminate;
    eexists; reflexivity.
Qed.

(** ** The path and the managers the bridge touches *)

Ltac bounded :=
  repeat (apply Forall_cons;
          [ split; intros ? E; cbn [event_path event_manager] in E;
            first [discriminate E | injection E as <-; reflexivity] |]);
  apply Forall_nil.

Lemma load_manager_bounds cached config w w' r :
  load_manager argv vmm config w = (w', r) ->
  exists new, calls w' = calls w ++ new /\ Forall (in_bounds (STATE_PATH argv) cached) new.
Proof.
  unfold load_manager, construct_from. unfold_monad. intros H.
  split_outcomes.
  all: normalize_history; eexists; split; [history |]; bounded.
Qed.


Lemma ensure_manager_bounds cached mo co config w w' r :
  ensure_manager argv vmm mo co config w = (w', r) ->
  exists new, calls w' = calls w ++ new /\ Forall (in_bounds (STATE_PATH argv) cached) new.
Proof.
  unfold ensure_manager. intros H.
  assert (Hmiss :
    bind (load_manager argv vmm config) (fun m' => ret (m', fingerprint config)) w = (w', r) ->
    exists new, calls w' = calls w ++ new /\ Forall (in_bounds (STATE_PATH argv) cached) new).
  { clear H. unfold bind, ret. intros H.
    destruct (load_manager argv vmm config w) as [w1 r1] eqn:E.
    apply (load_manager_bounds cached) in E.
    destruct r1; injection H as <- <-; exact E. }
  destruct mo as [m |]; [| now apply Hmiss].
  destruct (hash_eqb co (fingerprint config)); [| now apply Hmiss].
  injection H as <- <-. exists []. now rewrite app_nil_r.
Qed.




(** ** What a request that is not a register command leaves alone *)

(** X13.  Only the register command reaches a manager: a request with
    any other command, or with none, calls no method of a manager and
    persists nothing, also when its resolution has just constructed a
    new manager. *)
Theorem only_register_reaches_manager s raw w w' r :
  (forall d, json_loads raw = inr (JObj d) ->
             eq_str (item_or "command" d JNull) "register" = false) ->
  process_request argv json_loads vmm s raw w = (w', r) ->
  exists new,
    calls w' = calls w ++ new /\ saves new = 0 /\
    forall ev, In ev new -> event_manager ev = None.
Proof.
  intros Hcmd H.
  assert (Hnone : forall new : list (event handle),
            Forall (in_bounds (STATE_PATH argv) None) new ->
            saves new = 0 /\ forall ev, In ev new -> event_manager ev = None).
  { induction new as [| ev new IH]; intros Hb.
    - split; [reflexivity | intros ev []].
    - apply Forall_cons_iff in Hb as [[_ Hm] Hb].
      destruct (IH Hb) as [Hs Hall].
      assert (Hev : event_manager ev = None).
      { destruct (event_manager ev) as [h |] eqn:E; [| reflexivity].
        now specialize (Hm h eq_refl). }
      split.
      + destruct ev; try discriminate Hev; exact Hs.
      + intros ev' [<- | Hin]; [exact Hev | now apply Hall]. }
  destruct r as [e | [s' c]].
  { apply process_request_raises in H as (-> & _).
    exists []. rewrite app_nil_r. split; [reflexivity |]. now apply Hnone. }
  apply process_request_cases in H
    as [(v & -> & ->)
       | [(d & cfg & w1 & e & _ & Ee & -> & ->)
         | (d & cfg & w1 & m & fp & w2 & result & El & Ee & Er & -> & ->)]].
  - exists []. cbn [printed calls]. rewrite app_nil_r.
    split; [reflexivity |]. now apply Hnone.
  - apply (ensure_manager_bounds None) in Ee as (new & Hc & Hb).
    exists new. split; [exact Hc | now apply Hnone].
  - apply (ensure_manager_bounds None) in Ee as (new & Hc & Hb).
    rewrite (run_command_unsupported _ _ _ _ (Hcmd d El)) in Er.
    injection Er as <- _.
    exists new. split; [exact Hc | now apply Hnone].
Qed.

(** X11.  When the state file is there and [load_json] raises on it, a
    request that needs a resolution is answered by the initialisation
    failure of that exception: the constructor is not tried, the session
    is left as it was, and the loop goes on. *)
Theorem unreadable_state_blocks_resolution s raw d c w e1 e2 e :
  json_loads raw = inr (JObj d) ->
  eq_str (item_or "command" d JNull) "__shutdown__" = false ->
  item_or "config" d JNull = JObj c ->
  manager s = None \/
  hash_eqb (cached_config_hash s) (fingerprint (JObj c)) = false ->
  path_exists vmm (STATE_PATH argv) (outside w) = (e1, inr true) ->
  load_json vmm (STATE_PATH argv) e1 = (e2, inl e) ->
  process_request argv json_loads vmm s raw w
  = (printed (error_response ("Failed to initialize manager: " ++ exn_str e))
       {| outside := e2;
          calls := calls w ++ [CallExists (STATE_PATH argv) (inr true);
                               CallLoadJson (STATE_PATH argv) (inl e);
                               Resolved (JObj c) (inl e)];
          stdout := stdout w |},
     inr (s, Continue)).
Proof.
  intros El Ec Ecfg Hmiss He Hl.
  apply (process_request_failed _ _ _ _ _ _ _ El Ec Ecfg).
  assert (Hload : load_manager argv vmm (JObj c) w
                  = ({| outside := e2;
                        calls := calls w ++ [CallExists (STATE_PATH argv) (inr true);
                                             CallLoadJson (STATE_PATH argv) (inl e);
                                             Resolved (JObj c) (inl e)];
                        stdout := stdout w |}, inl e)).
  { unfold load_manager. unfold_monad.
    rewrite He. cbn. rewrite Hl. cbn. now rewrite <- !app_assoc. }
  unfold ensure_manager.
  destruct (manager s) as [m |].
  - destruct Hmiss as [Hn | Hh]; [discriminate |].
    rewrite Hh. unfold bind. now rewrite Hload.
  - unfold bind. now rewrite Hload.
Qed.

End BridgeFacts.

(* ================================================================== *)
(** * 8. The bridge at work on the in-memory manager *)
(* ================================================================== *)

Local Open Scope list_scope.

(** The unit test of [iter_requests]: blank lines are skipped, the others
    come out stripped and in order. *)
Example iter_requests_skips_blank_lines :
  iter_requests ["register" ++ Demo.newline; Demo.newline;
                 "  refresh  " ++ Demo.newline]%string
  = ["register"; "refresh"]%string.
Proof. reflexivity. Qed.

(** The scenario of the unit test of [main], with a fourth line: the line
    that is not JSON, the register request without a configuration and the
    shutdown command are answered in this order, and the line after the
    shutdown command is not. *)
Example main_answers_until_shutdown :
  stdout (fst (main [] Demo.decode Demo.vmm
                 ["not-json"%string; dumps (JObj [("command", JStr "register")]);
                  dumps Demo.shutdown; dumps (JObj Demo.register_fields)]
                 (Demo.start Demo.NoFile)))
  = [dumps (error_response
              "Invalid JSON payload: Expecting value: line 1 column 1 (char 0)");
     dumps (error_response "Missing manager configuration");
     dumps (JObj [("ok", JBool true); ("command", JStr "__shutdown__")])].
Proof. vm_compute. reflexivity. Qed.

(** A register request without [reinforce]: no reinforcement, one save,
    and [stats], [events] and [top] in the response. *)
Example register_without_reinforce :
  let w := fst (main [] Demo.decode Demo.vmm [dumps (JObj Demo.register_fields)]
                  (Demo.start Demo.NoFile)) in
  reinforcements (calls w) = 0 /\ saves (calls w) = 1 /\
  stdout w = [dumps (JObj [("stats", JObj [("count", JInt 2)]);
                           ("events", JArr []);
                           ("top", JArr [JStr "a"; JStr "b"])])].
Proof. vm_compute. repeat split. Qed.

(** ** C1 and C9: a payload that is not an object *)

Lemma non_object_request_gets_no_response_witness :
  snd (process_request [] Demo.decode Demo.vmm initial_session "42"
         (Demo.start Demo.NoFile))
  = inl (no_get (JInt 42)) /\
  stdout (fst (process_request [] Demo.decode Demo.vmm initial_session "42"
                 (Demo.start Demo.NoFile)))
  = stdout (Demo.start Demo.NoFile).
Proof.
  apply (non_object_request_gets_no_response [] Demo.decode Demo.vmm
           initial_session "42" (JInt 42) (Demo.start Demo.NoFile)).
  - reflexivity.
  - discriminate.
Defined.

Lemma loop_ends_at_non_object_request_witness :
  main_loop [] Demo.decode Demo.vmm
    ["42"%string; dumps (JObj (Demo.noop_fields 10))]
    initial_session (Demo.start Demo.NoFile)
  = (Demo.start Demo.NoFile, inl (no_get (JInt 42))).
Proof.
  apply (loop_ends_at_non_object_request [] Demo.decode Demo.vmm
           initial_session "42" (JInt 42)).
  - reflexivity.
  - discriminate.
Defined.

(** ** C2: two requests with the same configuration *)

Lemma cache_hit_reuses_manager_witness :
  resolutions
    (calls (fst (main_loop [] Demo.decode Demo.vmm
                   [dumps (JObj (Demo.noop_fields 10));
                    dumps (JObj Demo.no_command_fields)]
                   initial_session (Demo.start Demo.NoFile))))
  <= resolutions (calls (Demo.start Demo.NoFile)) + 1.
Proof.
  apply (proj2 (cache_hit_reuses_manager [] Demo.decode Demo.vmm)
           initial_session _ _ (Demo.noop_fields 10) Demo.no_command_fields).
  - reflexivity.
  - reflexivity.
  - reflexivity.
  - intros w1 e H. vm_compute in H. discriminate H.
Defined.

(** The claim without the proviso fails.  The state file is corrupt: the
    resolution of the first request raises in [load_json], nothing is
    cached, and the second request, with the same configuration, calls
    [load_json] again.  Or there is no state file and the configuration is
    an empty mapping: [load_manager] raises [KeyError] at its first
    parameter, for the first request and again for the second. *)
Lemma same_config_resolved_twice :
  let run f fields :=
    calls (fst (main_loop [] Demo.decode Demo.vmm
                  [dumps (JObj fields); dumps (JObj fields)]
                  initial_session (Demo.start f))) in
  Demo.decode (dumps (JObj (Demo.noop_fields 10))) = inr (JObj (Demo.noop_fields 10)) /\
  Demo.decode (dumps (JObj Demo.bare_fields)) = inr (JObj Demo.bare_fields) /\
  ~ resolutions (run Demo.Corrupt (Demo.noop_fields 10))
    <= resolutions (calls (Demo.start Demo.Corrupt)) + 1 /\
  ~ resolutions (run Demo.NoFile Demo.bare_fields)
    <= resolutions (calls (Demo.start Demo.NoFile)) + 1.
Proof.
  split; [reflexivity |]. split; [reflexivity |].
  split; vm_compute; lia.
Qed.

(** ** C3: a failed resolution *)

Lemma failed_resolution_keeps_session_witness :
  let failure := error_response "Failed to initialize manager: capacity must be positive" in
  let w1 := fst (ensure_manager [] Demo.vmm (Some 0)
                   (Some (fingerprint (Demo.config 10))) (Demo.config 0)
                   (Demo.after_first Demo.NoFile)) in
  process_request [] Demo.decode Demo.vmm Demo.served
    (dumps (JObj (Demo.noop_fields 0))) (Demo.after_first Demo.NoFile)
  = (printed failure w1, inr (Demo.served, Continue)) /\
  (forall rest,
      main_loop [] Demo.decode Demo.vmm
        (dumps (JObj (Demo.noop_fields 0)) :: rest) Demo.served
        (Demo.after_first Demo.NoFile)
      = main_loop [] Demo.decode Demo.vmm rest Demo.served (printed failure w1)) /\
  (forall m previous w2,
      manager Demo.served = Some m ->
      cached_config_hash Demo.served = Some (fingerprint previous) ->
      ensure_manager [] Demo.vmm (manager Demo.served)
        (cached_config_hash Demo.served) previous w2
      = (w2, inr (m, fingerprint previous))).
Proof.
  apply (failed_resolution_keeps_session [] Demo.decode Demo.vmm Demo.served
           (dumps (JObj (Demo.noop_fields 0))) (Demo.noop_fields 0)
           (Demo.parameters 0) (Demo.after_first Demo.NoFile) _
           (Raised "capacity must be positive")).
  - reflexivity.
  - reflexivity.
  - reflexivity.
  - vm_compute. reflexivity.
Defined.

(** ** C5: what the session caches *)

Lemma session_consistency_preserved_witness :
  session_consistent Demo.served (calls (Demo.after_first (Demo.Saved [JStr "a"]))).
Proof.
  apply (proj1 (proj2 (session_consistency_preserved [] Demo.decode Demo.vmm))
           initial_session
           (dumps (JObj (Demo.noop_fields 10))) (Demo.start (Demo.Saved [JStr "a"]))
           (Demo.after_first (Demo.Saved [JStr "a"])) Demo.served Continue).
  - reflexivity.
  - vm_compute. reflexivity.
Defined.

(** The stronger reading fails: with a saved state on disk the first
    request caches the restored manager under the fingerprint of its own
    configuration, and the constructor was never called. *)
Lemma restored_manager_not_built_from_config :
  process_request [] Demo.decode Demo.vmm initial_session
    (dumps (JObj (Demo.noop_fields 10))) (Demo.start (Demo.Saved [JStr "a"]))
  = (Demo.after_first (Demo.Saved [JStr "a"]), inr (Demo.served, Continue)) /\
  ~ session_built_from_config Demo.served
      (calls (Demo.after_first (Demo.Saved [JStr "a"]))).
Proof.
  split; [vm_compute; reflexivity |].
  intros H. destruct (H 0 eq_refl) as (config & _ & kwargs & _ & Hin).
  vm_compute in Hin.
  repeat (destruct Hin as [E | Hin]; [discriminate E |]). exact Hin.
Qed.

(** ** C6: where [load_manager] takes the manager from *)

Lemma load_manager_prefers_persisted_state_witness :
  load_manager [] Demo.vmm (Demo.config 10) (Demo.start (Demo.Saved [JStr "a"]))
  = ({| outside := {| Demo.objects := [[JStr "a"]]; Demo.file := Demo.Saved [JStr "a"] |};
        calls := calls (Demo.start (Demo.Saved [JStr "a"]))
                 ++ [CallExists (STATE_PATH []) (inr true);
                     CallLoadJson (STATE_PATH []) (inr (Some 0));
                     Resolved (Demo.config 10) (inr 0)];
        stdout := stdout (Demo.start (Demo.Saved [JStr "a"])) |}, inr 0).
Proof.
  apply (proj1 (load_manager_prefers_persisted_state [] Demo.vmm (Demo.config 10)
                  (Demo.start (Demo.Saved [JStr "a"])))
           {| Demo.objects := []; Demo.file := Demo.Saved [JStr "a"] |}).
  - reflexivity.
  - reflexivity.
Defined.

(** ** C7 and C8: the register command *)

Lemma reinforce_forwards_supplied_keys_witness :
  exists new,
    calls (fst (register_and_reinforce [] Demo.vmm 0 (JObj Demo.reinforced_fields)
                  (Demo.after_first Demo.NoFile)))
    = calls (Demo.after_first Demo.NoFile) ++ new /\
    reinforcements new <= 1 /\
    (forall ids texts e',
        lookup "ids" Demo.reinforced_fields = Some ids ->
        lookup "texts" Demo.reinforced_fields = Some texts ->
        register_chunks Demo.vmm 0 ids texts (outside (Demo.after_first Demo.NoFile))
        = (e', inr tt) ->
        reinforcements new = 1) /\
    forall h results hg tb res,
      In (CallReinforce h results hg tb res) new ->
      h = 0 /\
      hg = item_or "heat_gain" Demo.reinforced_fields (JFloat "0.5") /\
      tb = item_or "ttl_boost" Demo.reinforced_fields (JInt 60) /\
      exists fwd,
        results = JObj fwd /\
        (forall k, has_key k fwd = true -> k = "ids"%string \/ k = "distances"%string) /\
        lookup "ids" fwd = lookup "ids" [("ids"%string, JArr [JStr "a"])] /\
        lookup "distances" fwd = lookup "distances" [("ids"%string, JArr [JStr "a"])].
Proof.
  apply (proj1 (reinforce_forwards_supplied_keys [] Demo.vmm 0 Demo.reinforced_fields)
           [("ids"%string, JArr [JStr "a"])] (Demo.after_first Demo.NoFile) _
           (snd (register_and_reinforce [] Demo.vmm 0 (JObj Demo.reinforced_fields)
                   (Demo.after_first Demo.NoFile)))).
  - reflexivity.
  - discriminate.
  - apply surjective_pairing.
Defined.


(** ** C10: a command the bridge does not know *)

Lemma unsupported_command_after_resolution_witness :
  process_request [] Demo.decode Demo.vmm initial_session
    (dumps (JObj Demo.no_command_fields)) (Demo.start Demo.NoFile)
  = (printed (error_response "Unsupported command: None")
       (fst (ensure_manager [] Demo.vmm None None (Demo.config 10)
               (Demo.start Demo.NoFile))),
     inr (Demo.served, Continue)).
Proof.
  apply (unsupported_command_after_resolution [] Demo.decode Demo.vmm
           initial_session (dumps (JObj Demo.no_command_fields))
           Demo.no_command_fields (Demo.parameters 10) (Demo.start Demo.NoFile)
           _ 0 (fingerprint (Demo.config 10))).
  - reflexivity.
  - reflexivity.
  - reflexivity.
  - reflexivity.
  - vm_compute. reflexivity.
Defined.

(** The claim without the proviso fails: the request carries the fourteen
    parameters and a command the bridge does not know, the state file is
    corrupt, and the response is the initialization error.  So it is, with
    no state file, for a request whose configuration is an empty mapping. *)
Lemma unsupported_command_answered_by_init_failure :
  let answer f fields :=
    stdout (fst (process_request [] Demo.decode Demo.vmm initial_session
                   (dumps (JObj fields)) (Demo.start f))) in
  Demo.decode (dumps (JObj (Demo.noop_fields 10))) = inr (JObj (Demo.noop_fields 10)) /\
  eq_str (item_or "command" (Demo.noop_fields 10) JNull) "register" = false /\
  eq_str (item_or "command" (Demo.noop_fields 10) JNull) "__shutdown__" = false /\
  item_or "config" (Demo.noop_fields 10) JNull = Demo.config 10 /\
  answer Demo.Corrupt (Demo.noop_fields 10)
  = [dumps (error_response "Failed to initialize manager: state file is corrupt")] /\
  answer Demo.Corrupt (Demo.noop_fields 10)
  <> [dumps (error_response "Unsupported command: noop")] /\
  answer Demo.NoFile Demo.bare_fields
  = [dumps (error_response "Failed to initialize manager: 'capacity'")].
Proof.
  repeat split; try reflexivity.
  vm_compute. intros H. discriminate H.
Qed.

(** ** C4: fingerprints *)

Ltac distinct_keys :=
  repeat constructor; cbn [In]; intros H;
  repeat (destruct H as [H | H]; [discriminate H |]); exact H.

Lemma fingerprint_same_pairs_witness :
  fingerprint Demo.ratio_first = fingerprint Demo.capacity_first <->
  same_pairs Demo.ratio_first Demo.capacity_first.
Proof.
  apply (fingerprint_same_pairs Demo.ratio_first Demo.capacity_first).
  - cbn. repeat split; distinct_keys.
  - cbn. repeat split; distinct_keys.
Defined.

(** Reordered keys, same fingerprint; reordered array, another one. *)
Example fingerprint_ignores_key_order :
  fingerprint Demo.ratio_first = fingerprint Demo.capacity_first.
Proof. reflexivity. Qed.

Example fingerprint_keeps_array_order :
  fingerprint (JObj [("tags"%string, JArr [JInt 1; JInt 2])])
  <> fingerprint (JObj [("tags"%string, JArr [JInt 2; JInt 1])]).
Proof. vm_compute. discriminate. Qed.

(** ** More of the bridge on the in-memory manager *)

(** X1: the lines of the unit test of [iter_requests]. *)
Lemma iter_requests_yields_stripped_lines_witness :
  "refresh"%string <> ""%string /\
  starts_with_space "refresh" = false /\ ends_with_space "refresh" = false /\
  strip "refresh" = "refresh"%string.
Proof.
  apply (proj2 (iter_requests_yields_stripped_lines
                  ["register" ++ Demo.newline; Demo.newline;
                   "  refresh  " ++ Demo.newline]%string)).
  vm_compute. right. left. reflexivity.
Defined.

(** X2: an input of blank lines. *)
Lemma main_on_blank_input_witness :
  main [] Demo.decode Demo.vmm ["   "%string; Demo.newline; ""%string]
    (Demo.start Demo.NoFile)
  = (Demo.start Demo.NoFile, inr initial_session).
Proof.
  apply (main_on_blank_input [] Demo.decode Demo.vmm).
  intros raw [<- | [<- | [<- | []]]]; reflexivity.
Defined.

(** X3: a line that is not JSON, then a request without configuration. *)
Lemma rejected_requests_touch_nothing_witness :
  exists lines,
    main_loop [] Demo.decode Demo.vmm
      ["not-json"%string; dumps (JObj [("command"%string, JStr "register")])]
      Demo.served (Demo.after_first Demo.NoFile)
    = ({| outside := outside (Demo.after_first Demo.NoFile);
          calls := calls (Demo.after_first Demo.NoFile);
          stdout := stdout (Demo.after_first Demo.NoFile) ++ lines |},
       inr Demo.served) /\
    length lines = 2.
Proof.
  apply (rejected_requests_touch_nothing [] Demo.decode Demo.vmm
           ["not-json"%string; dumps (JObj [("command"%string, JStr "register")])]).
  intros raw [<- | [<- | []]]; reflexivity.
Defined.

(** X4: the request after the shutdown command is not looked at. *)
Lemma shutdown_ends_loop_witness :
  main_loop [] Demo.decode Demo.vmm [dumps Demo.shutdown; "42"%string]
    initial_session (Demo.start Demo.NoFile)
  = (printed (JObj [("ok"%string, JBool true);
                    ("command"%string, JStr "__shutdown__")])
       (Demo.start Demo.NoFile),
     inr initial_session).
Proof.
  apply (shutdown_ends_loop [] Demo.decode Demo.vmm initial_session
           (dumps Demo.shutdown) [("command"%string, JStr "__shutdown__")]).
  - reflexivity.
  - reflexivity.
Defined.



(** X7: a message with a line feed, a quote and a character beyond ASCII. *)
Lemma response_is_one_printable_line_witness :
  let v := error_response (String "010" (String "034" (String "233" ""))) in
  all_chars ascii_printable (dumps v) = true /\
  has_char "010" (dumps v) = false /\ has_char "013" (dumps v) = false /\
  forall msg, all_chars ascii_printable (dumps (error_response msg)) = true.
Proof.
  apply (response_is_one_printable_line
           (error_response (String "010" (String "034" (String "233" ""))))).
  simpl. split; [| exact (conj I I)].
  constructor; [intros [] | constructor].
Defined.

(** X8: the cached configuration with its keys in another order. *)
Lemma reordered_config_is_cache_hit_witness :
  ensure_manager [] Demo.vmm (Some 0) (Some (fingerprint Demo.ratio_first))
    Demo.capacity_first (Demo.after_first Demo.NoFile)
  = (Demo.after_first Demo.NoFile, inr (0, fingerprint Demo.capacity_first)).
Proof.
  apply (reordered_config_is_cache_hit [] Demo.vmm 0 Demo.ratio_first
           Demo.capacity_first).
  - cbn. repeat split; distinct_keys.
  - cbn. repeat split; distinct_keys.
  - apply (proj1 (fingerprint_iff Demo.ratio_first Demo.capacity_first
                    ltac:(cbn; repeat split; distinct_keys)
                    ltac:(cbn; repeat split; distinct_keys))).
    reflexivity.
Defined.

(** X9: another capacity than the cached one. *)
Lemma changed_config_resolves_again_witness :
  let w := Demo.after_first Demo.NoFile in
  let run := ensure_manager [] Demo.vmm (Some 0)
               (Some (fingerprint (Demo.small_config 10)))
               (Demo.small_config 20) w in
  exists r',
    load_manager [] Demo.vmm (Demo.small_config 20) w = (fst run, r') /\
    snd run = match r' with
              | inl e => inl e
              | inr m' => inr (m', fingerprint (Demo.small_config 20))
              end /\
    resolutions (calls (fst run)) = resolutions (calls w) + 1.
Proof.
  apply (changed_config_resolves_again [] Demo.vmm (Some 0)
           (Demo.small_config 10) (Demo.small_config 20)).
  - cbn. repeat split; distinct_keys.
  - cbn. repeat split; distinct_keys.
  - right. intros Hsame.
    assert (W : forall z, wf (Demo.small_config z))
      by (intros z; cbn; repeat split; distinct_keys).
    apply (proj2 (fingerprint_iff _ _ (W 10%Z) (W 20%Z))) in Hsame.
    vm_compute in Hsame. discriminate Hsame.
  - vm_compute. reflexivity.
Defined.

(** X10: a configuration with the capacity and nothing else. *)
Lemma load_manager_missing_parameter_witness :
  exists w' new,
    load_manager [] Demo.vmm (Demo.small_config 10) (Demo.start Demo.NoFile)
    = (w', inl (KeyError "base_ttl")) /\
    calls w' = calls (Demo.start Demo.NoFile) ++ new /\
    forall kwargs r, ~ In (CallConstruct kwargs r) new.
Proof.
  apply (load_manager_missing_parameter [] Demo.vmm
           [("capacity"%string, JInt 10)] ["capacity"%string] "base_ttl"
           (tl (tl manager_parameters))).
  - reflexivity.
  - intros name [<- | []]. discriminate.
  - reflexivity.
  - left. eexists. reflexivity.
Defined.

(** X11: a state file that [load_json] cannot read. *)
Lemma unreadable_state_blocks_resolution_witness :
  process_request [] Demo.decode Demo.vmm initial_session
    (dumps (JObj (Demo.noop_fields 10))) (Demo.start Demo.Corrupt)
  = (printed (error_response "Failed to initialize manager: state file is corrupt")
       {| outside := outside (Demo.start Demo.Corrupt);
          calls := [CallExists "server/data/void-state.json" (inr true);
                    CallLoadJson "server/data/void-state.json"
                      (inl (Raised "state file is corrupt"));
                    Resolved (Demo.config 10) (inl (Raised "state file is corrupt"))];
          stdout := [] |},
     inr (initial_session, Continue)).
Proof.
  apply (unreadable_state_blocks_resolution [] Demo.decode Demo.vmm
           initial_session (dumps (JObj (Demo.noop_fields 10)))
           (Demo.noop_fields 10) (Demo.parameters 10) (Demo.start Demo.Corrupt)
           (outside (Demo.start Demo.Corrupt)) (outside (Demo.start Demo.Corrupt))
           (Raised "state file is corrupt")).
  - reflexivity.
  - reflexivity.
  - reflexivity.
  - left. reflexivity.
  - reflexivity.
  - reflexivity.
Defined.

(** X12: a register request with a configuration and no [ids]. *)
Lemma register_without_ids_or_texts_witness :
  let decode := Demo.loads [JObj Demo.register_no_ids_fields] in
  let w := Demo.start Demo.NoFile in
  let w1 := fst (ensure_manager [] Demo.vmm None None (Demo.config 10) w) in
  exists key,
    lookup key Demo.register_no_ids_fields = None /\
    (key = "ids"%string \/
     key = "texts"%string /\ lookup "ids" Demo.register_no_ids_fields <> None) /\
    process_request [] decode Demo.vmm initial_session
      (dumps (JObj Demo.register_no_ids_fields)) w
    = (printed (error_response ("Void manager error: '" ++ key ++ "'")%string) w1,
       inr ({| manager := Some 0;
               cached_config_hash := Some (fingerprint (Demo.config 10)) |},
            Continue)).
Proof.
  apply (register_without_ids_or_texts []
           (Demo.loads [JObj Demo.register_no_ids_fields]) Demo.vmm
           initial_session (dumps (JObj Demo.register_no_ids_fields))
           Demo.register_no_ids_fields (Demo.parameters 10)
           (Demo.start Demo.NoFile)).
  - reflexivity.
  - reflexivity.
  - reflexivity.
  - vm_compute. reflexivity.
  - left. reflexivity.
Defined.

(** X13: a command that is not [register] constructs a manager and leaves
    it alone. *)
Lemma only_register_reaches_manager_witness :
  let run := process_request [] Demo.decode Demo.vmm initial_session
               (dumps (JObj (Demo.noop_fields 10))) (Demo.start Demo.NoFile) in
  exists new,
    calls (fst run) = calls (Demo.start Demo.NoFile) ++ new /\ saves new = 0 /\
    forall ev, In ev new -> event_manager ev = None.
Proof.
  apply (only_register_reaches_manager [] Demo.decode Demo.vmm initial_session
           (dumps (JObj (Demo.noop_fields 10))) (Demo.start Demo.NoFile) _
           (snd (process_request [] Demo.decode Demo.vmm initial_session
                   (dumps (JObj (Demo.noop_fields 10))) (Demo.start Demo.NoFile)))).
  - intros d E. vm_compute in E. injection E as <-. reflexivity.
  - vm_compute. reflexivity.
Defined.

(** X14: a register request served by the manager of the session. *)
Lemma reads_follow_save_witness :
  let w := Demo.after_first Demo.NoFile in
  let run := register_and_reinforce [] Demo.vmm 0 (JObj Demo.register_fields) w in
  exists new,
    calls (fst run) = calls w ++ new /\
    (forall before ev after,
        new = before ++ ev :: after -> is_read ev = true ->
        event_manager ev = Some 0 /\
        In (CallMkdir "server/data/void-state.json" (inr tt)) before /\
        In (CallSaveJson 0 "server/data/void-state.json" (inr tt)) before) /\
    (forall result, snd run = inr result ->
        exists st evs tp before,
          result = JObj [("stats"%string, st); ("events"%string, evs);
                         ("top"%string, tp)] /\
          new = before ++ [CallStats 0 (inr st); CallConsumeEvents 0 (inr evs);
                           CallTop 0 5 (inr tp)]).
Proof.
  apply (reads_follow_save [] Demo.vmm 0 (JObj Demo.register_fields)
           (Demo.after_first Demo.NoFile)).
  vm_compute. reflexivity.
Defined.

(** X15: [reinforce] is [null]. *)
Lemma falsy_reinforce_is_skipped_witness :
  let w := Demo.after_first Demo.NoFile in
  let run := register_and_reinforce [] Demo.vmm 0
               (JObj Demo.null_reinforce_fields) w in
  exists new,
    calls (fst run) = calls w ++ new /\ reinforcements new = 0 /\
    forall ids texts e1,
      lookup "ids" Demo.null_reinforce_fields = Some ids ->
      lookup "texts" Demo.null_reinforce_fields = Some texts ->
      register_chunks Demo.vmm 0 ids texts (outside w) = (e1, inr tt) ->
      exists res, In (CallMkdir "server/data/void-state.json" res) new.
Proof.
  apply (falsy_reinforce_is_skipped [] Demo.vmm 0 Demo.null_reinforce_fields
           (Demo.after_first Demo.NoFile) _
           (snd (register_and_reinforce [] Demo.vmm 0
                   (JObj Demo.null_reinforce_fields)
                   (Demo.after_first Demo.NoFile)))).
  - reflexivity.
  - vm_compute. reflexivity.
Defined.

(** X16: the four requests again. *)
Lemma main_loop_only_appends_witness :
  let requests := ["not-json"%string; dumps (JObj (Demo.noop_fields 10));
                   dumps Demo.shutdown; dumps (JObj Demo.register_fields)] in
  let run := main_loop [] Demo.decode Demo.vmm requests initial_session
               (Demo.start Demo.NoFile) in
  exists lines new,
    stdout (fst run) = stdout (Demo.start Demo.NoFile) ++ lines /\
    calls (fst run) = calls (Demo.start Demo.NoFile) ++ new /\
    length lines <= length requests /\ resolutions new <= length lines.
Proof.
  apply (main_loop_only_appends [] Demo.decode Demo.vmm
           ["not-json"%string; dumps (JObj (Demo.noop_fields 10));
            dumps Demo.shutdown; dumps (JObj Demo.register_fields)]
           initial_session (Demo.start Demo.NoFile) _
           (snd (main_loop [] Demo.decode Demo.vmm
                   ["not-json"%string; dumps (JObj (Demo.noop_fields 10));
                    dumps Demo.shutdown; dumps (JObj Demo.register_fields)]
                   initial_session (Demo.start Demo.NoFile)))).
  vm_compute. reflexivity.
Defined.

(** X17: a first request, then the shutdown command. *)
Lemma main_loop_app_witness :
  main_loop [] Demo.decode Demo.vmm
    ([dumps (JObj (Demo.noop_fields 10))] ++ [dumps Demo.shutdown])
    initial_session (Demo.start Demo.NoFile)
  = main_loop [] Demo.decode Demo.vmm [dumps Demo.shutdown] Demo.served
      (Demo.after_first Demo.NoFile).
Proof.
  apply (main_loop_app [] Demo.decode Demo.vmm
           [dumps (JObj (Demo.noop_fields 10))]).
  - intros raw [<- | []]. reflexivity.
  - vm_compute. reflexivity.
Defined.

(** X18: [reinforce] is [true]. *)
Lemma scalar_reinforce_raises_after_register_witness :
  let w := Demo.after_first Demo.NoFile in
  let ids := JArr [JStr "a"; JStr "b"] in
  let texts := JArr [JStr "x"; JStr "y"] in
  exists msg,
    register_and_reinforce [] Demo.vmm 0 (JObj Demo.true_reinforce_fields) w
    = ({| outside := fst (register_chunks Demo.vmm 0 ids texts (outside w));
          calls := calls w ++ [CallRegisterChunks 0 ids texts (inr tt)];
          stdout := stdout w |}, inl (TypeError msg)).
Proof.
  apply (scalar_reinforce_raises_after_register [] Demo.vmm 0
           Demo.true_reinforce_fields (JArr [JStr "a"; JStr "b"])
           (JArr [JStr "x"; JStr "y"])).
  - reflexivity.
  - reflexivity.
  - reflexivity.
  - reflexivity.
  - reflexivity.
Defined.

